(** * The mruby scripting bridge of mpv ([player/mruby.c])

    A shallow embedding of [player/mruby.c]: the conversion of host property
    nodes to interpreter values ([mpv_to_mrb_root]), the three functions the
    script can call ([_log], [_property_list], [_get_property]), the report of
    an uncaught exception ([print_backtrace]) and the life cycle of one script
    load ([load_script], [load_mruby]).

    The C code runs against two libraries that are not part of the file: the
    mruby interpreter and the mpv core.  Their functions are modelled here as
    far as [player/mruby.c] relies on them: an object heap with the GC arena,
    the constant table, the method table and the pending exception for
    mruby; properties, error strings, path resolution and the log sink for
    mpv.  Every function of the C file is a definition of the same name, in a
    state monad over [world] whose results are a normal return, a raised
    script exception (mruby's longjmp) or undefined behaviour of the C
    program. *)

From Stdlib Require Import ZArith String Ascii List Lia.
From Stdlib Require Import Floats.SpecFloat.
From stdpp Require Import base option list strings pretty gmap.

Local Open Scope string_scope.
Local Open Scope list_scope.
Local Open Scope Z_scope.

(** ** Strings at the C boundary *)

(** A Ruby string is a byte sequence with a length and may hold NUL bytes.
    A [char *] pointing at those bytes denotes, for [printf]'s [%s] and for
    [strlen], the bytes before the first NUL. *)
Fixpoint c_str (bytes : string) : string :=
  match bytes with
  | EmptyString => EmptyString
  | String a rest => if Ascii.eqb a Ascii.zero then EmptyString
                     else String a (c_str rest)
  end.

Fixpoint nul_free (s : string) : bool :=
  match s with
  | EmptyString => true
  | String a rest => negb (Ascii.eqb a Ascii.zero) && nul_free rest
  end.

(** [printf]'s [%d]. *)
Definition fmt_d (i : Z) : string := pretty i.

Definition nl : string := String (ascii_of_nat 10) EmptyString.
Definition tab : string := String (ascii_of_nat 9) EmptyString.
Definition dquote : string := String (ascii_of_nat 34) EmptyString.

(** [t] occurs in [s]. *)
Definition contains (s t : string) : Prop :=
  exists pre post, s = pre +:+ t +:+ post.

(** ** Host side: tagged property nodes ([libmpv/client.h]) *)

(** The values of [enum mpv_format] for the six formats the bridge converts.
    The enum is declared in [libmpv/client.h], outside the file, so the
    values are a parameter. *)
Record mpv_formats : Type := mk_mpv_formats {
  MPV_FORMAT_STRING : Z;
  MPV_FORMAT_FLAG : Z;
  MPV_FORMAT_INT64 : Z;
  MPV_FORMAT_DOUBLE : Z;
  MPV_FORMAT_NODE_ARRAY : Z;
  MPV_FORMAT_NODE_MAP : Z;
}.

Definition double : Type := spec_float.

Global Instance double_eq_dec : EqDecision double.
Proof. unfold double. solve_decision. Defined.

(** Modelled from the spec: [struct mpv_node] of [libmpv/client.h], the
    Tagged Host Value, a closed variant over String, Boolean-flag, Integer,
    Double, Array, Map and Unsupported.  In C it is a format tag and a union;
    each of the six formats the bridge knows comes with its payload, and
    [NodeOther] is a node of any other format, of which only the tag is
    read.  An [mpv_node_list] is the list of its values, for a map paired
    with the keys ([keys[n]], [values[n]]). *)
#[warnings="-register-all"] Inductive mpv_node : Type :=
| NodeString (string_ : string)
| NodeFlag (flag : Z)
| NodeInt64 (int64 : Z)
| NodeDouble (double_ : double)
| NodeArray (values : list mpv_node)
| NodeMap (entries : list (string * mpv_node))
| NodeOther (format : Z).

(** The formats that have a [case] in the [switch] of [mpv_to_mrb_root]. *)
Definition recognized (fm : mpv_formats) (format : Z) : bool :=
  (format =? MPV_FORMAT_STRING fm) || (format =? MPV_FORMAT_FLAG fm) ||
  (format =? MPV_FORMAT_INT64 fm) || (format =? MPV_FORMAT_DOUBLE fm) ||
  (format =? MPV_FORMAT_NODE_ARRAY fm) || (format =? MPV_FORMAT_NODE_MAP fm).

(** Induction over nodes that reaches the children of arrays and maps. *)
Section mpv_node_induction.
Variable P : mpv_node -> Prop.
Hypothesis HString : forall s, P (NodeString s).
Hypothesis HFlag : forall f, P (NodeFlag f).
Hypothesis HInt64 : forall i, P (NodeInt64 i).
Hypothesis HDouble : forall d, P (NodeDouble d).
Hypothesis HArray : forall values, Forall P values -> P (NodeArray values).
Hypothesis HMap : forall entries,
  Forall (fun kv => P (snd kv)) entries -> P (NodeMap entries).
Hypothesis HOther : forall f, P (NodeOther f).

Fixpoint mpv_node_rect_nested (node : mpv_node) : P node :=
  match node with
  | NodeString s => HString s
  | NodeFlag f => HFlag f
  | NodeInt64 i => HInt64 i
  | NodeDouble d => HDouble d
  | NodeArray values =>
      HArray values
        ((fix go (l : list mpv_node) : Forall P l :=
            match l with
            | [] => List.Forall_nil P
            | x :: l' =>
                List.Forall_cons _ x l' (mpv_node_rect_nested x) (go l')
            end) values)
  | NodeMap entries =>
      HMap entries
        ((fix go (l : list (string * mpv_node))
            : Forall (fun kv => P (snd kv)) l :=
            match l with
            | [] => List.Forall_nil _
            | kv :: l' =>
                List.Forall_cons _ kv l'
                  (match kv as kv0 return P (snd kv0) with
                   | (_, x) => mpv_node_rect_nested x
                   end) (go l')
            end) entries)
  | NodeOther f => HOther f
  end.
End mpv_node_induction.

(** ** Interpreter side: mruby values and objects *)

(** An uncaught or raised exception, as far as the bridge looks at it: the
    string [mrb_inspect] gives for it and the frames of its backtrace. *)
Record exception : Type := mk_exception {
  exc_inspect : string;
  exc_backtrace : list string;
}.

(** The C pointer stored in the constant [mpctx]. *)
Inductive cptr : Type :=
| cptr_null
| cptr_ctx.

(** [mrb_value]: immediates, and references into the object heap. *)
Inductive mrb_value : Type :=
| mrb_nil
| mrb_bool (b : bool)
| mrb_fixnum (i : Z)
| mrb_float (d : double)
| mrb_cptr_v (p : cptr)
| mrb_obj (p : nat).

(** Keys of a hash: mruby stores its own copy of a string key and compares
    string keys by content; any other key is kept as it is. *)
Inductive hkey : Type :=
| key_str (s : string)
| key_val (v : mrb_value).

Inductive RObject : Type :=
| RString (bytes : string)
| RArray (elts : list mrb_value)
| RHash (tbl : list (hkey * mrb_value)).

(** The functions of this file that are registered with the interpreter. *)
Inductive mrb_func : Type :=
| fn_log
| fn_property_list
| fn_get_property.

Global Instance exception_eq_dec : EqDecision exception.
Proof. solve_decision. Defined.
Global Instance cptr_eq_dec : EqDecision cptr.
Proof. solve_decision. Defined.
Global Instance mrb_value_eq_dec : EqDecision mrb_value.
Proof. solve_decision. Defined.
Global Instance hkey_eq_dec : EqDecision hkey.
Proof. solve_decision. Defined.

(** [mrb_state *]: null when [mrb_open] could not allocate an interpreter. *)
Inductive mrb_ptr : Type :=
| mrb_null
| mrb_addr.

(** A symbol is known by its name, and so is a module. *)
Abbreviation mrb_sym := string.
Abbreviation RClass := string.

(** [mrb_state], as far as the bridge reaches into it. *)
Record mrb_state : Type := mk_mrb_state {
  mrb_heap : list RObject;              (* objects, addressed by position *)
  mrb_arena : list nat;                 (* GC arena: the protected objects *)
  mrb_consts : gmap string mrb_value;   (* mrb_vm_const_set / _get *)
  mrb_methods : gmap (string * string) mrb_func; (* module functions *)
  mrb_exc : option exception;           (* mrb->exc *)
  mrb_args : list mrb_value;            (* arguments of the running call *)
}.

Definition mrb_state_init : mrb_state :=
  {| mrb_heap := []; mrb_arena := []; mrb_consts := ∅; mrb_methods := ∅;
     mrb_exc := None; mrb_args := [] |}.

Definition set_heap (h : list RObject) (st : mrb_state) : mrb_state :=
  {| mrb_heap := h; mrb_arena := mrb_arena st; mrb_consts := mrb_consts st;
     mrb_methods := mrb_methods st; mrb_exc := mrb_exc st;
     mrb_args := mrb_args st |}.
Definition set_arena (a : list nat) (st : mrb_state) : mrb_state :=
  {| mrb_heap := mrb_heap st; mrb_arena := a; mrb_consts := mrb_consts st;
     mrb_methods := mrb_methods st; mrb_exc := mrb_exc st;
     mrb_args := mrb_args st |}.
Definition set_consts (c : gmap string mrb_value) (st : mrb_state)
  : mrb_state :=
  {| mrb_heap := mrb_heap st; mrb_arena := mrb_arena st; mrb_consts := c;
     mrb_methods := mrb_methods st; mrb_exc := mrb_exc st;
     mrb_args := mrb_args st |}.
Definition set_methods (m : gmap (string * string) mrb_func) (st : mrb_state)
  : mrb_state :=
  {| mrb_heap := mrb_heap st; mrb_arena := mrb_arena st;
     mrb_consts := mrb_consts st; mrb_methods := m; mrb_exc := mrb_exc st;
     mrb_args := mrb_args st |}.
Definition set_exc (e : option exception) (st : mrb_state) : mrb_state :=
  {| mrb_heap := mrb_heap st; mrb_arena := mrb_arena st;
     mrb_consts := mrb_consts st; mrb_methods := mrb_methods st; mrb_exc := e;
     mrb_args := mrb_args st |}.
Definition set_args (a : list mrb_value) (st : mrb_state) : mrb_state :=
  {| mrb_heap := mrb_heap st; mrb_arena := mrb_arena st;
     mrb_consts := mrb_consts st; mrb_methods := mrb_methods st;
     mrb_exc := mrb_exc st; mrb_args := a |}.

(** ** The script, as the interpreter runs it *)

(** Arguments a script passes to a module function. *)
Inductive sarg : Type :=
| arg_nil
| arg_fixnum (i : Z)
| arg_str (bytes : string).

(** What a script does, seen from the bridge: it ends, it raises an exception
    nobody rescues, or it calls [recv.meth(args)] and goes on with the value
    returned ([k]) or with the exception the call raised ([rescue]; a script
    that does not rescue it continues as [script_raise]). *)
Inductive script : Type :=
| script_done
| script_raise (e : exception)
| script_send (recv meth : string) (args : list sarg)
    (k : mrb_value -> script) (rescue : exception -> script).

(** ** The mpv core, as the bridge sees it *)

Definition mp_log : Type := nat.

Record mpv_global : Type := mk_mpv_global {
  user_path : string -> string;        (* mp_get_user_path(NULL, global, _) *)
}.

Record MPContext : Type := mk_MPContext {
  global : mpv_global;
}.

Record mpv_handle : Type := mk_mpv_handle {
  mpv_client_name : string;
  mp_client_get_log : mp_log;
  mp_client_get_core : MPContext;
  (* mpv_get_property(client, name, MPV_FORMAT_NODE, &node): the error code,
     and the node written on success *)
  mpv_get_property : string -> Z * option mpv_node;
}.

Definition mp_get_user_path (g : mpv_global) (fname : string) : string :=
  user_path g fname.

(** [struct script_ctx] *)
Record script_ctx : Type := mk_script_ctx {
  ctx_state : mrb_ptr;
  ctx_name : string;
  ctx_filename : string;
  ctx_log : mp_log;
  ctx_client : mpv_handle;
  ctx_mpctx : MPContext;
}.

Definition set_state (mrb : mrb_ptr) (c : script_ctx) : script_ctx :=
  {| ctx_state := mrb; ctx_name := ctx_name c; ctx_filename := ctx_filename c;
     ctx_log := ctx_log c; ctx_client := ctx_client c;
     ctx_mpctx := ctx_mpctx c |}.

(** Severities of [common/msg.h]; [MP_ERR] logs at [MSGL_ERR]. *)
Inductive msg_level : Type :=
| MSGL_FATAL
| MSGL_ERR
| MSGL_WARN
| MSGL_INFO.

(** Resource events of one load, in the order they happen. *)
Inductive event : Type :=
| ev_ctx_alloc
| ev_mrb_open
| ev_mrb_close
| ev_ctx_free.

Global Instance event_eq_dec : EqDecision event.
Proof. solve_decision. Defined.

(** The state a load runs in: the interpreter behind the [mrb_state *] (absent
    before [mrb_open] and after [mrb_close]), the talloc'ed [script_ctx]
    (absent before its allocation and after [talloc_free]), what the log sink
    has received (one entry for each [MP_ERR] call) and the resource events. *)
Record world : Type := mk_world {
  interp : option mrb_state;
  ctx_mem : option script_ctx;
  sink : list (mp_log * msg_level * string);
  trace : list event;
}.

Definition set_interp (i : option mrb_state) (w : world) : world :=
  {| interp := i; ctx_mem := ctx_mem w; sink := sink w; trace := trace w |}.
Definition set_ctx_mem (c : option script_ctx) (w : world) : world :=
  {| interp := interp w; ctx_mem := c; sink := sink w; trace := trace w |}.
Definition set_sink (s : list (mp_log * msg_level * string)) (w : world)
  : world :=
  {| interp := interp w; ctx_mem := ctx_mem w; sink := s; trace := trace w |}.
Definition set_trace (t : list event) (w : world) : world :=
  {| interp := interp w; ctx_mem := ctx_mem w; sink := sink w; trace := t |}.

Definition world_init : world :=
  {| interp := None; ctx_mem := None; sink := []; trace := [] |}.

(** What lies outside the file and is fixed during a load. *)
Record environment : Type := mk_environment {
  formats : mpv_formats;                (* enum mpv_format *)
  mrb_int_bits : Z;                     (* width of mrb_int (mrbconf.h) *)
  mrb_open_succeeds : bool;             (* mrb_open() finds memory *)
  mp_get_property_list : list string;   (* names of mp_get_property_list() *)
  mpv_error_string : Z -> string;       (* libmpv's mpv_error_string *)
  files : string -> option script;      (* readable files, parsed *)
}.

(** ** The monad of the C code *)

Inductive result (A : Type) : Type :=
| Ok (a : A) (w : world)               (* the call returns *)
| Raised (e : exception) (w : world)   (* mrb_raise: longjmp to the VM *)
| Undefined.                           (* undefined behaviour *)
Arguments Ok {A} a w.
Arguments Raised {A} e w.
Arguments Undefined {A}.

Definition M (A : Type) : Type := world -> result A.

Definition ret {A} (a : A) : M A := fun w => Ok a w.

Definition bind {A B} (m : M A) (k : A -> M B) : M B :=
  fun w =>
    match m w with
    | Ok a w' => k a w'
    | Raised e w' => Raised e w'
    | Undefined => Undefined
    end.

Definition undefined {A} : M A := fun _ => Undefined.

Definition mrb_exc_raise {A} (e : exception) : M A := fun w => Raised e w.

(** The VM's protected call: [rescue] gets an exception raised by [m]. *)
Definition protect {A B} (m : M A) (k : A -> M B) (rescue : exception -> M B)
  : M B :=
  fun w =>
    match m w with
    | Ok a w' => k a w'
    | Raised e w' => rescue e w'
    | Undefined => Undefined
    end.

Declare Scope mrb_scope.
Delimit Scope mrb_scope with mrb.
Notation "x <- c1 ;; c2" := (bind c1 (fun x => c2))
  (at level 100, c1 at next level, c2 at level 200, right associativity,
   only parsing) : mrb_scope.
Notation "c1 ;; c2" := (bind c1 (fun _ => c2))
  (at level 100, c2 at level 200, right associativity, only parsing)
  : mrb_scope.
Local Open Scope mrb_scope.

(** [for (n = 0; n < num; n++) body(list[n])] *)
Definition for_each {A} (body : A -> M unit) : list A -> M unit :=
  fix go (l : list A) : M unit :=
    match l with
    | [] => ret tt
    | x :: l' => body x ;; go l'
    end.

(** A loop that carries a local variable. *)
Definition fold_m {A B} (body : B -> A -> M B) : list A -> B -> M B :=
  fix go (l : list A) (acc : B) : M B :=
    match l with
    | [] => ret acc
    | x :: l' => acc' <- body acc x ;; go l' acc'
    end.

Definition map_m {A B} (f : A -> M B) : list A -> M (list B) :=
  fix go (l : list A) : M (list B) :=
    match l with
    | [] => ret []
    | x :: l' => y <- f x ;; ys <- go l' ;; ret (y :: ys)
    end.

(** ** The mruby API the file calls *)

(** Reaching through the [mrb_state *]: undefined behaviour when the pointer
    is null or the interpreter behind it is closed. *)
Definition mrb_get (mrb : mrb_ptr) : M mrb_state :=
  fun w =>
    match mrb, interp w with
    | mrb_addr, Some st => Ok st w
    | _, _ => Undefined
    end.

Definition mrb_put (mrb : mrb_ptr) (st : mrb_state) : M unit :=
  fun w =>
    match mrb, interp w with
    | mrb_addr, Some _ => Ok tt (set_interp (Some st) w)
    | _, _ => Undefined
    end.

(** [mrb_obj_alloc]: every new object takes the next heap address and a slot
    of the arena ([mrb_gc_protect]), which keeps it alive until the arena is
    restored below that slot. *)
Definition mrb_obj_alloc (mrb : mrb_ptr) (o : RObject) : M mrb_value :=
  st <- mrb_get mrb ;;
  let p := length (mrb_heap st) in
  mrb_put mrb (set_arena (mrb_arena st ++ [p])
                 (set_heap (mrb_heap st ++ [o]) st)) ;;
  ret (mrb_obj p).

Definition mrb_gc_arena_save (mrb : mrb_ptr) : M nat :=
  st <- mrb_get mrb ;;
  ret (length (mrb_arena st)).

Definition mrb_gc_arena_restore (mrb : mrb_ptr) (idx : nat) : M unit :=
  st <- mrb_get mrb ;;
  mrb_put mrb (set_arena (take idx (mrb_arena st)) st).

(** [mrb_str_new_cstr] copies [strlen] bytes. *)
Definition mrb_str_new_cstr (mrb : mrb_ptr) (p : string) : M mrb_value :=
  mrb_obj_alloc mrb (RString (c_str p)).

Definition mrb_ary_new (mrb : mrb_ptr) : M mrb_value :=
  mrb_obj_alloc mrb (RArray []).

Definition mrb_hash_new (mrb : mrb_ptr) : M mrb_value :=
  mrb_obj_alloc mrb (RHash []).

(** [mrb_ary_push] appends to the array object in place; the C API casts its
    argument without a check. *)
Definition mrb_ary_push (mrb : mrb_ptr) (ary item : mrb_value) : M unit :=
  st <- mrb_get mrb ;;
  match ary with
  | mrb_obj p =>
      match mrb_heap st !! p with
      | Some (RArray elts) =>
          mrb_put mrb
            (set_heap (<[p := RArray (elts ++ [item])]> (mrb_heap st)) st)
      | _ => undefined
      end
  | _ => undefined
  end.

Definition hash_key (st : mrb_state) (key : mrb_value) : hkey :=
  match key with
  | mrb_obj p =>
      match mrb_heap st !! p with
      | Some (RString bytes) => key_str bytes
      | _ => key_val key
      end
  | _ => key_val key
  end.

(** A key already in the table keeps its place and gets the new value; a new
    key goes to the end. *)
Fixpoint tbl_set {K V} `{EqDecision K} (tbl : list (K * V)) (k : K) (v : V)
  : list (K * V) :=
  match tbl with
  | [] => [(k, v)]
  | (k', v') :: rest =>
      if decide (k' = k) then (k', v) :: rest
      else (k', v') :: tbl_set rest k v
  end.

Definition mrb_hash_set (mrb : mrb_ptr) (hash key val : mrb_value) : M unit :=
  st <- mrb_get mrb ;;
  match hash with
  | mrb_obj p =>
      match mrb_heap st !! p with
      | Some (RHash tbl) =>
          mrb_put mrb
            (set_heap (<[p := RHash (tbl_set tbl (hash_key st key) val)]>
                         (mrb_heap st)) st)
      | _ => undefined
      end
  | _ => undefined
  end.

Definition mrb_nil_value : mrb_value := mrb_nil.
Definition mrb_bool_value (b : bool) : mrb_value := mrb_bool b.

(** Two's complement wrap-around to [bits] bits. *)
Definition wrap (bits i : Z) : Z :=
  (i + 2 ^ (bits - 1)) mod 2 ^ bits - 2 ^ (bits - 1).

(** Without word boxing a float is an immediate: [mrb] is not used. *)
Definition mrb_float_value (mrb : mrb_ptr) (d : double) : mrb_value :=
  mrb_float d.

Definition mrb_cptr_value (mrb : mrb_ptr) (p : cptr) : mrb_value :=
  mrb_cptr_v p.

(** [mrb_cptr] reads the pointer member of the value. *)
Definition mrb_cptr (v : mrb_value) : M cptr :=
  match v with
  | mrb_cptr_v p => ret p
  | _ => undefined
  end.

Definition mrb_intern_cstr (mrb : mrb_ptr) (name : string) : M mrb_sym :=
  mrb_get mrb ;; ret name.

Definition E_NAME_ERROR (sym : mrb_sym) : exception :=
  {| exc_inspect := "uninitialized constant " +:+ sym +:+ " (NameError)";
     exc_backtrace := [] |}.
Definition E_TYPE_ERROR : exception :=
  {| exc_inspect := "expected String (TypeError)"; exc_backtrace := [] |}.
Definition E_ARGUMENT_ERROR : exception :=
  {| exc_inspect := "wrong number of arguments (ArgumentError)";
     exc_backtrace := [] |}.
Definition E_NOMETHOD_ERROR (meth : string) : exception :=
  {| exc_inspect := "undefined method '" +:+ meth +:+ "' (NoMethodError)";
     exc_backtrace := [] |}.

Definition mrb_vm_const_get (mrb : mrb_ptr) (sym : mrb_sym) : M mrb_value :=
  st <- mrb_get mrb ;;
  match mrb_consts st !! sym with
  | Some v => ret v
  | None => mrb_exc_raise (E_NAME_ERROR sym)
  end.

Definition mrb_vm_const_set (mrb : mrb_ptr) (sym : mrb_sym) (v : mrb_value)
  : M unit :=
  st <- mrb_get mrb ;;
  mrb_put mrb (set_consts (<[sym := v]> (mrb_consts st)) st).

Definition mrb_define_module (mrb : mrb_ptr) (name : string) : M RClass :=
  mrb_get mrb ;; ret name.

Definition MRB_ARGS_REQ (n : Z) : Z := n.

Definition mrb_define_module_function (mrb : mrb_ptr) (mod_ : RClass)
    (name : string) (func : mrb_func) (aspec : Z) : M unit :=
  st <- mrb_get mrb ;;
  mrb_put mrb (set_methods (<[(mod_, name) := func]> (mrb_methods st)) st).

(** [mrb_get_args(mrb, "s", &string, &len)]: the one argument must be a
    String; [string] points at its bytes, [len] is their number. *)
Definition mrb_get_args_s (mrb : mrb_ptr) : M (string * Z) :=
  st <- mrb_get mrb ;;
  match mrb_args st with
  | [mrb_obj p] =>
      match mrb_heap st !! p with
      | Some (RString bytes) =>
          ret (c_str bytes, Z.of_nat (String.length bytes))
      | _ => mrb_exc_raise E_TYPE_ERROR
      end
  | [_] => mrb_exc_raise E_TYPE_ERROR
  | _ => mrb_exc_raise E_ARGUMENT_ERROR
  end.

(** Reading an object of the interpreter without going through [mrb]. *)
Definition heap_read (v : mrb_value) : M RObject :=
  fun w =>
    match v, interp w with
    | mrb_obj p, Some st =>
        match mrb_heap st !! p with
        | Some o => Ok o w
        | None => Undefined
        end
    | _, _ => Undefined
    end.

(** [RSTRING_PTR(s)], used as a [char *]. *)
Definition RSTRING_PTR (s : mrb_value) : M string :=
  o <- heap_read s ;;
  match o with
  | RString bytes => ret (c_str bytes)
  | _ => undefined
  end.

Definition mrb_ary_len (mrb : mrb_ptr) (ary : mrb_value) : M Z :=
  o <- heap_read ary ;;
  match o with
  | RArray elts => ret (Z.of_nat (length elts))
  | _ => undefined
  end.

(** [mrb_ary_entry] gives nil outside the array. *)
Definition mrb_ary_entry (ary : mrb_value) (i : Z) : M mrb_value :=
  o <- heap_read ary ;;
  match o with
  | RArray elts =>
      ret (if i <? 0 then mrb_nil
           else default mrb_nil (elts !! Z.to_nat i))
  | _ => undefined
  end.

(** [mrb_exc_backtrace] and [mrb_inspect], for the exception object they are
    called with in this file: the backtrace is an array of strings, one for
    each frame; the inspection is a string. *)
Definition mrb_exc_backtrace (mrb : mrb_ptr) (exc : exception) : M mrb_value :=
  frames <- map_m (fun f => mrb_obj_alloc mrb (RString f))
              (exc_backtrace exc) ;;
  mrb_obj_alloc mrb (RArray frames).

Definition mrb_inspect (mrb : mrb_ptr) (exc : exception) : M mrb_value :=
  mrb_obj_alloc mrb (RString (exc_inspect exc)).

Definition mrb_close (mrb : mrb_ptr) : M unit :=
  mrb_get mrb ;;
  fun w => Ok tt (set_trace (trace w ++ [ev_mrb_close]) (set_interp None w)).

(** ** talloc, stdio and the log *)

(** Modelled from the spec: [talloc.h] is outside the file; the Script Context
    is created before the interpreter is opened and freed after it is
    closed.  This is [talloc_ptrtype(NULL, ctx)] followed by the assignment
    of the struct. *)
Definition talloc_script_ctx (c : script_ctx) : M cptr :=
  fun w => Ok cptr_ctx (set_trace (trace w ++ [ev_ctx_alloc])
                          (set_ctx_mem (Some c) w)).

(** [*ctx] *)
Definition ctx_read (ctx : cptr) : M script_ctx :=
  fun w =>
    match ctx, ctx_mem w with
    | cptr_ctx, Some c => Ok c w
    | _, _ => Undefined
    end.

Definition ctx_write (ctx : cptr) (c : script_ctx) : M unit :=
  fun w =>
    match ctx, ctx_mem w with
    | cptr_ctx, Some _ => Ok tt (set_ctx_mem (Some c) w)
    | _, _ => Undefined
    end.

Definition talloc_free_ctx (ctx : cptr) : M unit :=
  fun w =>
    match ctx, ctx_mem w with
    | cptr_ctx, Some _ =>
        Ok tt (set_trace (trace w ++ [ev_ctx_free]) (set_ctx_mem None w))
    | cptr_null, _ => Ok tt w
    | cptr_ctx, None => Undefined
    end.

(** Modelled from the spec: the macro [MP_ERR] of [common/msg.h], the
    diagnostics sink, which accepts a severity and the formatted text; the
    bridge always logs at error severity.  [MP_ERR(ctx, fmt, ...)] goes to
    the log [ctx->log]. *)
Definition MP_ERR (ctx : cptr) (text : string) : M unit :=
  c <- ctx_read ctx ;;
  fun w => Ok tt (set_sink (sink w ++ [(ctx_log c, MSGL_ERR, text)]) w).

(** [talloc_free] of a C string: the memory goes, nothing else changes. *)
Definition talloc_free_str (s : string) : M unit := ret tt.

(** A [FILE *]: null, or a stream over the script in the file. *)
Definition FILE : Type := option script.

Definition fclose (fp : FILE) : M unit :=
  match fp with
  | Some _ => ret tt
  | None => undefined
  end.

Definition mrbc_context : Type := unit.
Definition mrbc_context_new (mrb : mrb_ptr) : M mrbc_context :=
  mrb_get mrb ;; ret tt.
Definition mrbc_filename (mrb : mrb_ptr) (c : mrbc_context) (s : string)
  : M unit :=
  mrb_get mrb ;; ret tt.
Definition mrbc_context_free (mrb : mrb_ptr) (c : mrbc_context) : M unit :=
  mrb_get mrb ;; ret tt.

(** ** The functions of [player/mruby.c] *)

Section Bridge.
Variable env : environment.

(** [mrb_fixnum_value] takes an [mrb_int]: the [int64_t] is converted. *)
Definition mrb_fixnum_value (i : Z) : mrb_value :=
  mrb_fixnum (wrap (mrb_int_bits env) i).

Definition mrb_open : M mrb_ptr :=
  fun w =>
    if mrb_open_succeeds env
    then Ok mrb_addr (set_trace (trace w ++ [ev_mrb_open])
                        (set_interp (Some mrb_state_init) w))
    else Ok mrb_null w.

Definition fopen (path : string) : M FILE :=
  ret (files env path).

Definition get_ctx (mrb : mrb_ptr) : M cptr :=
  sym <- mrb_intern_cstr mrb "mpctx" ;;
  mrbctx <- mrb_vm_const_get mrb sym ;;
  mrb_cptr mrbctx.

Definition _log (mrb : mrb_ptr) (self : mrb_value) : M mrb_value :=
  ctx <- get_ctx mrb ;;
  a <- mrb_get_args_s mrb ;;
  let string_ := fst a in
  MP_ERR ctx string_ ;;
  ret mrb_nil_value.

Definition _property_list (mrb : mrb_ptr) (self : mrb_value) : M mrb_value :=
  let props := mp_get_property_list env in
  mrb_props <- mrb_ary_new mrb ;;
  ai <- mrb_gc_arena_save mrb ;;
  for_each (fun prop_name =>
              name <- mrb_str_new_cstr mrb prop_name ;;
              mrb_ary_push mrb mrb_props name) props ;;
  mrb_gc_arena_restore mrb ai ;;
  ret mrb_props.

(** [get_node] returns whether the lookup succeeded, and what it left in
    [*value]. *)
Definition get_node (mrb : mrb_ptr) : M (bool * option mpv_node) :=
  ctx <- get_ctx mrb ;;
  a <- mrb_get_args_s mrb ;;
  let name := fst a in
  c <- ctx_read ctx ;;
  let r := mpv_get_property (ctx_client c) name in
  let err := fst r in
  (if err <? 0
   then MP_ERR ctx ("get_property(" +:+ dquote +:+ name +:+ dquote +:+
                    ") failed: " +:+ mpv_error_string env err +:+ "." +:+ nl)
   else ret tt) ;;
  ret (0 <=? err, if 0 <=? err then snd r else None).

Fixpoint mpv_to_mrb_root (mrb : mrb_ptr) (node : mpv_node) (root : bool)
  : M mrb_value :=
  match node with
  | NodeString string_ =>
      mrb_str_new_cstr mrb string_
  | NodeFlag flag =>
      ret (mrb_bool_value (0 <=? flag))
  | NodeInt64 int64 =>
      ret (mrb_fixnum_value int64)
  | NodeDouble double_ =>
      ret (mrb_float_value mrb double_)
  | NodeArray values =>
      ary <- mrb_ary_new mrb ;;
      ai <- mrb_gc_arena_save mrb ;;
      for_each (fun value =>
                  item <- mpv_to_mrb_root mrb value false ;;
                  mrb_ary_push mrb ary item) values ;;
      (if root then mrb_gc_arena_restore mrb ai else ret tt) ;;
      ret ary
  | NodeMap entries =>
      hash <- mrb_hash_new mrb ;;
      ai <- mrb_gc_arena_save mrb ;;
      for_each (fun entry =>
                  key <- mrb_str_new_cstr mrb (fst entry) ;;
                  val <- mpv_to_mrb_root mrb (snd entry) false ;;
                  mrb_hash_set mrb hash key val) entries ;;
      (if root then mrb_gc_arena_restore mrb ai else ret tt) ;;
      ret hash
  | NodeOther format =>
      (* a node tagged with one of the six formats above holds that
         format's payload; the [case] would read a member of the union
         that was never written *)
      if recognized (formats env) format then undefined
      else
        ctx <- get_ctx mrb ;;
        MP_ERR ctx ("mpv_node mapping failed (format: " +:+ fmt_d format +:+
                    ")." +:+ nl) ;;
        ret mrb_nil_value
  end.

Definition mpv_to_mrb (mrb : mrb_ptr) (node : mpv_node) : M mrb_value :=
  mpv_to_mrb_root mrb node true.

Definition _get_property (mrb : mrb_ptr) (self : mrb_value) : M mrb_value :=
  r <- get_node mrb ;;
  if fst r
  then match snd r with
       | Some node => mpv_to_mrb mrb node
       | None => undefined             (* [node] was never written *)
       end
  else ret mrb_nil_value.

Definition define_module (mrb : mrb_ptr) : M unit :=
  mod_ <- mrb_define_module mrb "M" ;;
  mrb_define_module_function mrb mod_ "log" fn_log (MRB_ARGS_REQ 1) ;;
  mrb_define_module_function mrb mod_ "property_list" fn_property_list
    (MRB_ARGS_REQ 0) ;;
  mrb_define_module_function mrb mod_ "get_property" fn_get_property
    (MRB_ARGS_REQ 1).

Definition print_backtrace (mrb : mrb_ptr) : M unit :=
  st <- mrb_get mrb ;;
  match mrb_exc st with
  | None => ret tt
  | Some exc =>
      bt <- mrb_exc_backtrace mrb exc ;;
      ai <- mrb_gc_arena_save mrb ;;
      let err := EmptyString in       (* talloc_strdup of the empty string *)
      exc_str <- mrb_inspect mrb exc ;;
      s <- RSTRING_PTR exc_str ;;
      let err := err +:+ s +:+ nl in
      bt_len <- mrb_ary_len mrb bt ;;
      let err := err +:+ "backtrace:" +:+ nl in
      err <- fold_m (fun err i =>
                       s <- mrb_ary_entry bt i ;;
                       p <- RSTRING_PTR s ;;
                       ret (err +:+ tab +:+ "[" +:+ fmt_d i +:+ "] => " +:+
                            p +:+ nl))
               (Z.of_nat <$> seq 0 (Z.to_nat bt_len)) err ;;
      mrb_gc_arena_restore mrb ai ;;
      ctx <- get_ctx mrb ;;
      MP_ERR ctx err ;;
      talloc_free_str err
  end.

(** *** The interpreter running a script *)

Definition call_func (f : mrb_func) : mrb_ptr -> mrb_value -> M mrb_value :=
  match f with
  | fn_log => _log
  | fn_property_list => _property_list
  | fn_get_property => _get_property
  end.

Definition vm_arg (mrb : mrb_ptr) (a : sarg) : M mrb_value :=
  match a with
  | arg_nil => ret mrb_nil
  | arg_fixnum i => ret (mrb_fixnum i)
  | arg_str bytes => mrb_obj_alloc mrb (RString bytes)
  end.

Definition vm_set_args (mrb : mrb_ptr) (argv : list mrb_value) : M unit :=
  st <- mrb_get mrb ;;
  mrb_put mrb (set_args argv st).

Definition vm_set_exc (mrb : mrb_ptr) (e : exception) : M unit :=
  st <- mrb_get mrb ;;
  mrb_put mrb (set_exc (Some e) st).

(** The VM calls a C function with the arguments on its stack and restores
    the arena when the function has returned or raised.  An exception that
    reaches the top is left in [mrb->exc]. *)
Fixpoint vm_run (mrb : mrb_ptr) (s : script) : M unit :=
  match s with
  | script_done => ret tt
  | script_raise e => vm_set_exc mrb e
  | script_send recv meth args k rescue =>
      st <- mrb_get mrb ;;
      match mrb_methods st !! (recv, meth) with
      | None => vm_run mrb (rescue (E_NOMETHOD_ERROR meth))
      | Some f =>
          ai <- mrb_gc_arena_save mrb ;;
          argv <- map_m (vm_arg mrb) args ;;
          vm_set_args mrb argv ;;
          protect (call_func f mrb mrb_nil)
            (fun v => mrb_gc_arena_restore mrb ai ;; vm_run mrb (k v))
            (fun e => mrb_gc_arena_restore mrb ai ;; vm_run mrb (rescue e))
      end
  end.

(** [mrb_load_file_cxt]: parses and runs the file; at a null stream the
    parser is at the end of its input at once. *)
Definition mrb_load_file_cxt (mrb : mrb_ptr) (fp : FILE) (c : mrbc_context)
  : M mrb_value :=
  mrb_get mrb ;;
  match fp with
  | Some prog => vm_run mrb prog ;; ret mrb_nil
  | None => ret mrb_nil
  end.

Definition load_script (mrb : mrb_ptr) (fname : string) : M unit :=
  ctx <- get_ctx mrb ;;
  c <- ctx_read ctx ;;
  let file_path := mp_get_user_path (global (ctx_mpctx c)) fname in
  fp <- fopen file_path ;;
  mrb_ctx <- mrbc_context_new mrb ;;
  mrbc_filename mrb mrb_ctx file_path ;;

  mrb_load_file_cxt mrb fp mrb_ctx ;;
  print_backtrace mrb ;;

  mrbc_context_free mrb mrb_ctx ;;

  fclose fp ;;
  talloc_free_str file_path.

Definition load_mruby (client : mpv_handle) (fname : string) : M Z :=
  let mpctx := mp_client_get_core client in
  let r := -1 in
  ctx <- talloc_script_ctx
           {| ctx_state := mrb_null;
              ctx_name := mpv_client_name client;
              ctx_filename := fname;
              ctx_log := mp_client_get_log client;
              ctx_client := client;
              ctx_mpctx := mpctx |} ;;
  mrb <- mrb_open ;;
  c <- ctx_read ctx ;;
  ctx_write ctx (set_state mrb c) ;;
  sym <- mrb_intern_cstr mrb "mpctx" ;;
  mrb_vm_const_set mrb sym (mrb_cptr_value mrb ctx) ;;
  define_module mrb ;;
  r <- match mrb with
       | mrb_null => ret r                        (* goto err_out *)
       | mrb_addr => load_script mrb fname ;; ret 0
       end ;;
  (* err_out: *)
  c <- ctx_read ctx ;;
  match ctx_state c with
  | mrb_addr => mrb_close (ctx_state c)
  | mrb_null => ret tt
  end ;;
  talloc_free_ctx ctx ;;
  ret r.

End Bridge.

(** ** What a conversion leaves in the heap *)

(** Reading a value back out of a heap as a tree.  [fuel] bounds the number
    of references followed on a path. *)
#[warnings="-register-all"] Inductive tvalue : Type :=
| t_nil
| t_bool (b : bool)
| t_int (i : Z)
| t_float (d : double)
| t_str (bytes : string)
| t_ary (elts : list tvalue)
| t_hash (tbl : list (string * tvalue)).

Definition reify_list {A B} (f : A -> option B) : list A -> option (list B) :=
  fix go (l : list A) : option (list B) :=
    match l with
    | [] => Some []
    | x :: l' =>
        match f x, go l' with
        | Some y, Some ys => Some (y :: ys)
        | _, _ => None
        end
    end.

Definition reify_entry (f : mrb_value -> option tvalue) (e : hkey * mrb_value)
  : option (string * tvalue) :=
  match fst e, f (snd e) with
  | key_str k, Some t => Some (k, t)
  | _, _ => None
  end.

Fixpoint reify (fuel : nat) (h : list RObject) (v : mrb_value)
  : option tvalue :=
  match v with
  | mrb_nil => Some t_nil
  | mrb_bool b => Some (t_bool b)
  | mrb_fixnum i => Some (t_int i)
  | mrb_float d => Some (t_float d)
  | mrb_cptr_v _ => None
  | mrb_obj p =>
      match fuel with
      | O => None
      | S fuel' =>
          match h !! p with
          | Some (RString bytes) => Some (t_str bytes)
          | Some (RArray elts) =>
              t_ary <$> reify_list (reify fuel' h) elts
          | Some (RHash tbl) =>
              t_hash <$> reify_list (reify_entry (reify fuel' h)) tbl
          | None => None
          end
      end
  end.

(** The tree of a node: strings through [fs], integers through [fi]; an array
    in the order of its values; a map by setting its pairs in the order of
    the source; nil for a node of another format. *)
Definition shape_list (shape : mpv_node -> tvalue)
  : list mpv_node -> list tvalue :=
  fix go (l : list mpv_node) : list tvalue :=
    match l with
    | [] => []
    | x :: l' => shape x :: go l'
    end.

Definition shape_entries (fs : string -> string) (shape : mpv_node -> tvalue)
  : list (string * mpv_node) -> list (string * tvalue) ->
    list (string * tvalue) :=
  fix go (l : list (string * mpv_node)) (tbl : list (string * tvalue))
    : list (string * tvalue) :=
    match l with
    | [] => tbl
    | e :: l' => go l' (tbl_set tbl (fs (fst e)) (shape (snd e)))
    end.

Fixpoint shape (fs : string -> string) (fi : Z -> Z) (node : mpv_node)
  : tvalue :=
  match node with
  | NodeString s => t_str (fs s)
  | NodeFlag flag => t_bool (0 <=? flag)
  | NodeInt64 i => t_int (fi i)
  | NodeDouble d => t_float d
  | NodeArray values => t_ary (shape_list (shape fs fi) values)
  | NodeMap entries => t_hash (shape_entries fs (shape fs fi) entries [])
  | NodeOther _ => t_nil
  end.

(** The value that mirrors a node. *)
Definition mirror : mpv_node -> tvalue := shape id id.

Definition height_list (height : mpv_node -> nat) : list mpv_node -> nat :=
  fix go (l : list mpv_node) : nat :=
    match l with
    | [] => O
    | x :: l' => Nat.max (height x) (go l')
    end.

Definition height_entries (height : mpv_node -> nat)
  : list (string * mpv_node) -> nat :=
  fix go (l : list (string * mpv_node)) : nat :=
    match l with
    | [] => O
    | e :: l' => Nat.max (height (snd e)) (go l')
    end.

(** The longest chain of references in the converted value. *)
Fixpoint height (node : mpv_node) : nat :=
  match node with
  | NodeString _ => 1
  | NodeArray values => S (height_list height values)
  | NodeMap entries => S (height_entries height entries)
  | _ => O
  end.

(** Conditions on a node. *)
Definition all_list (f : mpv_node -> bool) : list mpv_node -> bool :=
  fix go (l : list mpv_node) : bool :=
    match l with
    | [] => true
    | x :: l' => f x && go l'
    end.

Definition all_entries (fk : string -> bool) (f : mpv_node -> bool)
  : list (string * mpv_node) -> bool :=
  fix go (l : list (string * mpv_node)) : bool :=
    match l with
    | [] => true
    | e :: l' => fk (fst e) && f (snd e) && go l'
    end.

(** Every node of another format carries a tag the [switch] has no [case]
    for. *)
Fixpoint well_tagged (fm : mpv_formats) (node : mpv_node) : bool :=
  match node with
  | NodeArray values => all_list (well_tagged fm) values
  | NodeMap entries => all_entries (fun _ => true) (well_tagged fm) entries
  | NodeOther format => negb (recognized fm format)
  | _ => true
  end.

(** No node of another format at all. *)
Fixpoint unsupported_free (node : mpv_node) : bool :=
  match node with
  | NodeArray values => all_list unsupported_free values
  | NodeMap entries => all_entries (fun _ => true) unsupported_free entries
  | NodeOther _ => false
  | _ => true
  end.

Definition in_range (bits i : Z) : bool :=
  (- 2 ^ (bits - 1) <=? i) && (i <? 2 ^ (bits - 1)).

(** A well-formed node: strings and keys are C strings, so without a NUL
    inside, and integers are [int64_t]. *)
Fixpoint well_formed (node : mpv_node) : bool :=
  match node with
  | NodeString s => nul_free s
  | NodeInt64 i => in_range 64 i
  | NodeArray values => all_list well_formed values
  | NodeMap entries => all_entries nul_free well_formed entries
  | _ => true
  end.

(** Every integer of the node lies in the range of an [mrb_int] of this
    width. *)
Fixpoint ints_fit (bits : Z) (node : mpv_node) : bool :=
  match node with
  | NodeInt64 i => in_range bits i
  | NodeArray values => all_list (ints_fit bits) values
  | NodeMap entries => all_entries (fun _ => true) (ints_fit bits) entries
  | _ => true
  end.

(** The objects a conversion allocates, from address [p] on, and the value
    it returns. *)
Definition build_list (build : nat -> mpv_node -> list RObject * mrb_value)
  : list mpv_node -> nat -> list RObject * list mrb_value :=
  fix go (l : list mpv_node) (q : nat) : list RObject * list mrb_value :=
    match l with
    | [] => ([], [])
    | x :: l' =>
        let e := build q x in
        let r := go l' (q + length (fst e))%nat in
        (fst e ++ fst r, snd e :: snd r)
    end.

Definition build_entries (build : nat -> mpv_node -> list RObject * mrb_value)
  : list (string * mpv_node) -> nat -> list (hkey * mrb_value) ->
    list RObject * list (hkey * mrb_value) :=
  fix go (l : list (string * mpv_node)) (q : nat)
      (tbl : list (hkey * mrb_value))
    : list RObject * list (hkey * mrb_value) :=
    match l with
    | [] => ([], tbl)
    | e :: l' =>
        let key := RString (c_str (fst e)) in
        let b := build (S q) (snd e) in
        let r := go l' (S q + length (fst b))%nat
                   (tbl_set tbl (key_str (c_str (fst e))) (snd b)) in
        (key :: fst b ++ fst r, snd r)
    end.

Fixpoint build (bits : Z) (p : nat) (node : mpv_node)
  : list RObject * mrb_value :=
  match node with
  | NodeString s => ([RString (c_str s)], mrb_obj p)
  | NodeFlag flag => ([], mrb_bool (0 <=? flag))
  | NodeInt64 i => ([], mrb_fixnum (wrap bits i))
  | NodeDouble d => ([], mrb_float d)
  | NodeArray values =>
      let r := build_list (build bits) values (S p) in
      (RArray (snd r) :: fst r, mrb_obj p)
  | NodeMap entries =>
      let r := build_entries (build bits) entries (S p) [] in
      (RHash (snd r) :: fst r, mrb_obj p)
  | NodeOther _ => ([], mrb_nil)
  end.

(** The lines a conversion logs: one for each node of another format. *)
Definition diag_line (format : Z) : string :=
  "mpv_node mapping failed (format: " +:+ fmt_d format +:+ ")." +:+ nl.

Definition diag_list (diag : mpv_node -> list string)
  : list mpv_node -> list string :=
  fix go (l : list mpv_node) : list string :=
    match l with
    | [] => []
    | x :: l' => diag x ++ go l'
    end.

Definition diag_entries (diag : mpv_node -> list string)
  : list (string * mpv_node) -> list string :=
  fix go (l : list (string * mpv_node)) : list string :=
    match l with
    | [] => []
    | e :: l' => diag (snd e) ++ go l'
    end.

Fixpoint diag (node : mpv_node) : list string :=
  match node with
  | NodeArray values => diag_list diag values
  | NodeMap entries => diag_entries diag entries
  | NodeOther format => [diag_line format]
  | _ => []
  end.

Definition is_collection (node : mpv_node) : bool :=
  match node with
  | NodeArray _ | NodeMap _ => true
  | _ => false
  end.

(** The arena slots a conversion leaves behind, for the objects at [p] and
    after: a root call on a collection keeps the collection only. *)
Definition roots (root : bool) (node : mpv_node) (p n : nat) : list nat :=
  if root && is_collection node then [p] else seq p n.

(** ** Worlds and conditions the statements use *)

(** A world with an open interpreter, field by field. *)
Definition live (h : list RObject) (a : list nat) (cs : gmap string mrb_value)
    (ms : gmap (string * string) mrb_func) (e : option exception)
    (ar : list mrb_value) (cm : option script_ctx)
    (sk : list (mp_log * msg_level * string)) (tr : list event) : world :=
  mk_world (Some (mk_mrb_state h a cs ms e ar)) cm sk tr.

Definition log_of (cm : option script_ctx) : mp_log :=
  match cm with
  | Some c => ctx_log c
  | None => O
  end.

(** The entries [MP_ERR] adds to the sink for these texts. *)
Definition log_entries (cm : option script_ctx) (texts : list string)
  : list (mp_log * msg_level * string) :=
  map (fun t => (log_of cm, MSGL_ERR, t)) texts.

(** [load_mruby] has stored the context in the constant [mpctx]. *)
Definition ctx_bound (cs : gmap string mrb_value) (cm : option script_ctx)
  : Prop :=
  cs !! "mpctx" = Some (mrb_cptr_v cptr_ctx) /\ is_Some cm.

(** The context can be reached when the conversion needs it. *)
Definition ctx_ready (node : mpv_node) (cs : gmap string mrb_value)
    (cm : option script_ctx) : Prop :=
  unsupported_free node = true \/ ctx_bound cs cm.

(** What a conversion run does, in terms of [build], [roots] and [diag]. *)
Definition conv_ok (env : environment) (cs : gmap string mrb_value)
    (ms : gmap (string * string) mrb_func) (e : option exception)
    (ar : list mrb_value) (cm : option script_ctx) (tr : list event)
    (node : mpv_node) : Prop :=
  forall root h a sk p, p = length h ->
    mpv_to_mrb_root env mrb_addr node root (live h a cs ms e ar cm sk tr)
    = let b := build (mrb_int_bits env) p node in
      Ok (snd b)
         (live (h ++ fst b) (a ++ roots root node p (length (fst b)))
            cs ms e ar cm (sk ++ log_entries cm (diag node)) tr).

(** The built value reads back as the tree of the node, in any heap that
    holds the built objects at their addresses. *)
Definition reads_back (bits : Z) (node : mpv_node) : Prop :=
  forall fuel h rest p, p = length h -> (height node <= fuel)%nat ->
    let b := build bits p node in
    reify fuel (h ++ fst b ++ rest) (snd b)
    = Some (shape c_str (wrap bits) node).

(** The contract of [mpv_get_property]: on success it has written a node,
    and nodes are tagged consistently. *)
Definition host_ok (fm : mpv_formats) (client : mpv_handle) : Prop :=
  forall name, 0 <= fst (mpv_get_property client name) ->
    exists node, snd (mpv_get_property client name) = Some node /\
                 well_tagged fm node = true.

(** The text of a backtrace report: the description, the header, and one
    line for each frame, numbered from [i]. *)
Fixpoint bt_lines (i : nat) (frames : list string) : string :=
  match frames with
  | [] => EmptyString
  | f :: frames' =>
      tab +:+ "[" +:+ fmt_d (Z.of_nat i) +:+ "] => " +:+ f +:+ nl +:+
      bt_lines (S i) frames'
  end.

Definition backtrace_text (description : string) (frames : list string)
  : string :=
  description +:+ nl +:+ "backtrace:" +:+ nl +:+ bt_lines 0 frames.

(** The line [get_node] logs when the lookup of [name] failed with [err]. *)
Definition get_property_failed (env : environment) (name : string) (err : Z)
  : string :=
  "get_property(" +:+ dquote +:+ name +:+ dquote +:+ ") failed: " +:+
  mpv_error_string env err +:+ "." +:+ nl.

(** The outcome of a call of a module function: it returns or raises, and
    leaves the interpreter open, with the constants, the methods, the pending
    exception, the arguments, the context and the events as they were. *)
Definition stays (cs : gmap string mrb_value)
    (ms : gmap (string * string) mrb_func) (e : option exception)
    (ar : list mrb_value) (cm : option script_ctx) (tr : list event)
    {A} (r : result A) : Prop :=
  match r with
  | Ok _ w' | Raised _ w' =>
      exists h a sk, w' = live h a cs ms e ar cm sk tr
  | Undefined => False
  end.

(** From [w] to [w']: the context is the same, no resource event happened,
    and an open interpreter is still open. *)
Definition frame_ok (w w' : world) : Prop :=
  ctx_mem w' = ctx_mem w /\ trace w' = trace w /\
  (is_Some (interp w) -> is_Some (interp w')).

Definition preserves {A} (m : M A) : Prop :=
  forall w,
    match m w with
    | Ok _ w' | Raised _ w' => frame_ok w w'
    | Undefined => True
    end.

(** ** A sample player, for the examples *)

Definition sample_fault : exception :=
  {| exc_inspect := "boom (RuntimeError)";
     exc_backtrace := ["fault.mrb:2:in call"; "fault.mrb:5"] |}.

(** It logs a line, asks for a property that does not exist and ends. *)
Definition sample_script : script :=
  script_send "M" "log" [arg_str "hello"]
    (fun _ =>
       script_send "M" "get_property" [arg_str "nonexistent.property"]
         (fun _ => script_done) script_raise)
    script_raise.

(** The tags as [libmpv/client.h] numbers them; 9 is a byte array. *)
Definition sample_formats : mpv_formats :=
  {| MPV_FORMAT_STRING := 1; MPV_FORMAT_FLAG := 3; MPV_FORMAT_INT64 := 4;
     MPV_FORMAT_DOUBLE := 5; MPV_FORMAT_NODE_ARRAY := 7;
     MPV_FORMAT_NODE_MAP := 8 |}.

Definition sample_env : environment :=
  {| formats := sample_formats;
     mrb_int_bits := 64;
     mrb_open_succeeds := true;
     mp_get_property_list := ["pause"; "volume"];
     mpv_error_string :=
       (fun err => if err =? -8 then "property not found"
                   else "unspecified error");
     files :=
       (fun path =>
          if String.eqb path "/scripts/ok.mrb" then Some sample_script
          else if String.eqb path "/scripts/fault.mrb"
               then Some (script_raise sample_fault)
               else None) |}.

(** The same player when [mrb_open] finds no memory. *)
Definition sample_env_no_memory : environment :=
  {| formats := sample_formats;
     mrb_int_bits := 64;
     mrb_open_succeeds := false;
     mp_get_property_list := mp_get_property_list sample_env;
     mpv_error_string := mpv_error_string sample_env;
     files := files sample_env |}.

(** The same player with an interpreter whose [mrb_int] is 32 bits wide. *)
Definition sample_env_32 : environment :=
  {| formats := sample_formats;
     mrb_int_bits := 32;
     mrb_open_succeeds := true;
     mp_get_property_list := mp_get_property_list sample_env;
     mpv_error_string := mpv_error_string sample_env;
     files := files sample_env |}.

Definition sample_client : mpv_handle :=
  {| mpv_client_name := "ok";
     mp_client_get_log := 7%nat;
     mp_client_get_core :=
       {| global := {| user_path := (fun f => "/scripts/" +:+ f) |} |};
     mpv_get_property :=
       (fun name => if String.eqb name "pause" then (0, Some (NodeFlag 0))
                    else (-8, None)) |}.

Definition sample_ctx : script_ctx :=
  {| ctx_state := mrb_addr; ctx_name := "ok"; ctx_filename := "ok.mrb";
     ctx_log := 7%nat; ctx_client := sample_client;
     ctx_mpctx := mp_client_get_core sample_client |}.

Definition sample_consts : gmap string mrb_value :=
  {[ "mpctx" := mrb_cptr_v cptr_ctx ]}.

Definition sample_node : mpv_node :=
  NodeArray [NodeString "a"; NodeMap [("k", NodeInt64 5); ("f", NodeFlag 1)]].

(** A message with a NUL byte in the middle. *)
Definition nul_message : string := "a" +:+ String Ascii.zero "b".

(** ** The statements of the specification that the code does not meet *)

(** The load code, in the words of the specification: negative when the file
    could not be opened or the script raised an uncaught exception, 0 when
    the script ended normally. *)
Definition load_code_as_specified (env : environment) (client : mpv_handle)
    (fname : string) (w : world) : Prop :=
  exists r w',
    load_mruby env client fname w = Ok r w' /\
    match files env (mp_get_user_path (global (mp_client_get_core client))
                       fname) with
    | None => r < 0
    | Some (script_raise _) => r < 0
    | Some script_done => r = 0
    | Some (script_send _ _ _ _ _) => True
    end.

(** A conversion call has released the scope it opened: the arena is back at
    the mark the call saved, which is one slot, the collection's, above the
    arena the call found. *)
Definition scope_released (env : environment) (node : mpv_node) (root : bool)
    (w : world) : Prop :=
  exists st v w' st',
    interp w = Some st /\
    mpv_to_mrb_root env mrb_addr node root w = Ok v w' /\
    interp w' = Some st' /\
    mrb_arena st' = mrb_arena st ++ [length (mrb_heap st)].

(** The root guard, in the words of the specification: a nested call releases
    its scope, a root call does not. *)
Definition root_guard_as_specified (env : environment) (node : mpv_node)
    (w : world) : Prop :=
  scope_released env node false w /\ ~ scope_released env node true w.

(** [_log], in the words of the specification: the message reaches the sink
    verbatim. *)
Definition log_verbatim (bytes : string) : Prop :=
  forall self h a cs ms e c sk tr p,
    cs !! "mpctx" = Some (mrb_cptr_v cptr_ctx) ->
    h !! p = Some (RString bytes) ->
    _log mrb_addr self (live h a cs ms e [mrb_obj p] (Some c) sk tr)
    = Ok mrb_nil
        (live h a cs ms e [mrb_obj p] (Some c)
           (sk ++ [(ctx_log c, MSGL_ERR, bytes)]) tr).

(** The conversion, in the words of the specification: every well-formed
    node without a node of another format converts to a value that mirrors
    it. *)
Definition mirrors_as_specified (env : environment) : Prop :=
  forall node root h a cs ms e ar cm sk tr,
    well_formed node = true ->
    unsupported_free node = true ->
    exists v w' st,
      mpv_to_mrb_root env mrb_addr node root (live h a cs ms e ar cm sk tr)
      = Ok v w' /\
      interp w' = Some st /\
      reify (height node) (mrb_heap st) v = Some (mirror node).

(** ** Counting over a node *)

Definition sum_list (f : mpv_node -> nat) : list mpv_node -> nat :=
  fix go (l : list mpv_node) : nat :=
    match l with
    | [] => O
    | x :: l' => (f x + go l')%nat
    end.

Definition sum_entries (k : nat) (f : mpv_node -> nat)
  : list (string * mpv_node) -> nat :=
  fix go (l : list (string * mpv_node)) : nat :=
    match l with
    | [] => O
    | e :: l' => (k + f (snd e) + go l')%nat
    end.

(** The calls of [mrb_str_new_cstr], [mrb_ary_new] and [mrb_hash_new] a
    conversion makes: one for each string, array and map, and one for each
    key of a map. *)
Fixpoint allocs (node : mpv_node) : nat :=
  match node with
  | NodeString _ => 1
  | NodeArray values => S (sum_list allocs values)
  | NodeMap entries => S (sum_entries 1 allocs entries)
  | _ => O
  end.

(** The nodes of another format in a node. *)
Fixpoint count_other (node : mpv_node) : nat :=
  match node with
  | NodeArray values => sum_list count_other values
  | NodeMap entries => sum_entries 0 count_other entries
  | NodeOther _ => 1
  | _ => O
  end.

(** ** A load, from the outside *)

(** The Script Context of a load, once the interpreter is stored in it. *)
Definition load_ctx (client : mpv_handle) (fname : string) : script_ctx :=
  {| ctx_state := mrb_addr;
     ctx_name := mpv_client_name client;
     ctx_filename := fname;
     ctx_log := mp_client_get_log client;
     ctx_client := client;
     ctx_mpctx := mp_client_get_core client |}.

(** The methods of a table after [define_module]. *)
Definition with_module (ms : gmap (string * string) mrb_func)
  : gmap (string * string) mrb_func :=
  <[("M", "get_property") := fn_get_property]>
    (<[("M", "property_list") := fn_property_list]>
       (<[("M", "log") := fn_log]> ms)).

(** The world in which [load_mruby] calls [load_script]. *)
Definition load_world (client : mpv_handle) (fname : string) (w : world)
  : world :=
  mk_world
    (Some (mk_mrb_state [] [] (<["mpctx" := mrb_cptr_v cptr_ctx]> ∅)
             (with_module ∅) None []))
    (Some (load_ctx client fname)) (sink w)
    (trace w ++ [ev_ctx_alloc; ev_mrb_open]).

(** A script that logs the messages one after the other and ends. *)
Fixpoint log_script (msgs : list string) : script :=
  match msgs with
  | [] => script_done
  | m :: msgs' =>
      script_send "M" "log" [arg_str m] (fun _ => log_script msgs')
        script_raise
  end.

(** Entries of the sink that were written at error severity to the log
    [lg]. *)
Definition error_entries (lg : mp_log)
    (sk : list (mp_log * msg_level * string)) : Prop :=
  Forall (fun en => fst en = (lg, MSGL_ERR)) sk.

(** ** Reasoning about runs *)

Lemma bind_Ok {A B} (m : M A) (k : A -> M B) w a w' :
  m w = Ok a w' -> bind m k w = k a w'.
Proof. intros H. unfold bind. now rewrite H. Qed.

Lemma bind_Raised {A B} (m : M A) (k : A -> M B) w e w' :
  m w = Raised e w' -> bind m k w = Raised e w'.
Proof. intros H. unfold bind. now rewrite H. Qed.

Lemma bind_Undefined {A B} (m : M A) (k : A -> M B) w :
  m w = Undefined -> bind m k w = Undefined.
Proof. intros H. unfold bind. now rewrite H. Qed.

Lemma list_insert_at {A} (h : list A) (x y : A) rest :
  <[length h := y]> (h ++ x :: rest) = h ++ y :: rest.
Proof.
  rewrite insert_app_r_alt by lia. now rewrite Nat.sub_diag.
Qed.

Lemma all_list_Forall f l :
  all_list f l = true -> Forall (fun x => f x = true) l.
Proof.
  induction l as [|x l IH]; cbn; intros H; constructor.
  - now apply andb_prop in H.
  - apply IH. now apply andb_prop in H.
Qed.

Lemma all_entries_Forall fk f l :
  all_entries fk f l = true ->
  Forall (fun kv => fk (fst kv) = true /\ f (snd kv) = true) l.
Proof.
  induction l as [|x l IH]; cbn; intros H; constructor.
  - apply andb_prop in H as [H _]. now apply andb_prop in H.
  - apply IH. now apply andb_prop in H.
Qed.

Section Runs.
Variable env : environment.
Variables (cs : gmap string mrb_value)
          (ms : gmap (string * string) mrb_func)
          (e : option exception) (ar : list mrb_value)
          (cm : option script_ctx) (tr : list event).

Local Abbreviation world_at h a sk := (live h a cs ms e ar cm sk tr).

Lemma mrb_obj_alloc_run h a sk o p :
  p = length h ->
  mrb_obj_alloc mrb_addr o (world_at h a sk)
  = Ok (mrb_obj p) (world_at (h ++ [o]) (a ++ [p]) sk).
Proof. intros ->. reflexivity. Qed.

Lemma mrb_gc_arena_save_run h a sk :
  mrb_gc_arena_save mrb_addr (world_at h a sk)
  = Ok (length a) (world_at h a sk).
Proof. reflexivity. Qed.

Lemma mrb_gc_arena_restore_run h a sk idx :
  mrb_gc_arena_restore mrb_addr idx (world_at h a sk)
  = Ok tt (world_at h (take idx a) sk).
Proof. reflexivity. Qed.


Lemma mrb_ary_push_run h items rest a sk item :
  mrb_ary_push mrb_addr (mrb_obj (length h)) item
    (world_at (h ++ RArray items :: rest) a sk)
  = Ok tt (world_at (h ++ RArray (items ++ [item]) :: rest) a sk).
Proof.
  unfold mrb_ary_push, bind, live; cbn.
  rewrite list_lookup_middle by reflexivity. cbn.
  now rewrite list_insert_at.
Qed.

Lemma mrb_hash_set_run h tbl rest a sk q bytes val :
  (h ++ RHash tbl :: rest) !! q = Some (RString bytes) ->
  mrb_hash_set mrb_addr (mrb_obj (length h)) (mrb_obj q) val
    (world_at (h ++ RHash tbl :: rest) a sk)
  = Ok tt (world_at (h ++ RHash (tbl_set tbl (key_str bytes) val) :: rest)
             a sk).
Proof.
  intros Hq. unfold mrb_hash_set, bind, live; cbn.
  rewrite list_lookup_middle by reflexivity. cbn.
  unfold hash_key; cbn. rewrite Hq.
  now rewrite list_insert_at.
Qed.

Lemma get_ctx_run h a sk :
  cs !! "mpctx" = Some (mrb_cptr_v cptr_ctx) ->
  get_ctx mrb_addr (world_at h a sk) = Ok cptr_ctx (world_at h a sk).
Proof.
  intros Hc.
  unfold get_ctx, mrb_intern_cstr, mrb_vm_const_get, bind, mrb_get, ret, live.
  cbn [interp mrb_consts]. now rewrite Hc.
Qed.

Lemma MP_ERR_run h a sk text :
  is_Some cm ->
  MP_ERR cptr_ctx text (world_at h a sk)
  = Ok tt (world_at h a (sk ++ log_entries cm [text])).
Proof. intros [c ->]. reflexivity. Qed.

Local Abbreviation conv_ok := (conv_ok env cs ms e ar cm tr).

Lemma array_loop values :
  Forall conv_ok values ->
  forall h items exts a sk q, q = S (length h + length exts) ->
    for_each (fun value =>
                item <- mpv_to_mrb_root env mrb_addr value false ;;
                mrb_ary_push mrb_addr (mrb_obj (length h)) item)
      values (world_at (h ++ RArray items :: exts) a sk)
    = let r := build_list (build (mrb_int_bits env)) values q in
      Ok tt (world_at (h ++ RArray (items ++ snd r) :: exts ++ fst r)
               (a ++ seq q (length (fst r)))
               (sk ++ log_entries cm (diag_list diag values))).
Proof.
  induction 1 as [|x l Hx _ IH]; intros h items exts a sk q Hq.
  - cbn. now rewrite !app_nil_r.
  - cbn [for_each build_list diag_list].
    erewrite bind_Ok; cycle 1.
    { erewrite bind_Ok; cycle 1.
      { apply (Hx false _ _ _ q). rewrite length_app. cbn. lia. }
      cbn zeta.
      rewrite <- app_assoc, <- app_comm_cons.
      apply mrb_ary_push_run. }
    rewrite (IH _ _ _ _ _ (q + length (fst (build (mrb_int_bits env) q x)))%nat)
      by (rewrite length_app; lia).
    cbn zeta. unfold roots; cbn [andb].
    destruct (build (mrb_int_bits env) q x) as [e1 v1]; cbn [fst snd].
    destruct (build_list _ l _) as [r1 r2]; cbn [fst snd].
    unfold log_entries.
    rewrite <- !app_assoc, length_app, seq_app, map_app. reflexivity.
Qed.

Lemma map_loop entries :
  Forall (fun kv => conv_ok (snd kv)) entries ->
  forall h tbl exts a sk q, q = S (length h + length exts) ->
    for_each (fun entry =>
                key <- mrb_str_new_cstr mrb_addr (fst entry) ;;
                val <- mpv_to_mrb_root env mrb_addr (snd entry) false ;;
                mrb_hash_set mrb_addr (mrb_obj (length h)) key val)
      entries (world_at (h ++ RHash tbl :: exts) a sk)
    = let r := build_entries (build (mrb_int_bits env)) entries q tbl in
      Ok tt (world_at (h ++ RHash (snd r) :: exts ++ fst r)
               (a ++ seq q (length (fst r)))
               (sk ++ log_entries cm (diag_entries diag entries))).
Proof.
  induction 1 as [|[k x] l Hx _ IH]; intros h tbl exts a sk q Hq.
  - cbn. now rewrite !app_nil_r.
  - cbn [for_each build_entries diag_entries fst snd] in *.
    assert (Hlen : length (h ++ RHash tbl :: exts) = q)
      by (rewrite length_app; cbn; lia).
    erewrite bind_Ok; cycle 1.
    { erewrite bind_Ok; cycle 1.
      { apply (mrb_obj_alloc_run _ _ _ _ q). now rewrite Hlen. }
      erewrite bind_Ok; cycle 1.
      { apply (Hx false _ _ _ (S q)). rewrite length_app, Hlen. cbn. lia. }
      cbn zeta.
      rewrite <- !app_assoc, <- !app_comm_cons.
      apply mrb_hash_set_run.
      rewrite app_comm_cons, app_assoc.
      apply list_lookup_middle. now rewrite Hlen. }
    set (b := build (mrb_int_bits env) (S q) x).
    assert (Hq' : (S q + length (fst b))%nat
                  = S (length h + length (exts ++ RString (c_str k) :: fst b))).
    { rewrite ?length_app; cbn [length]. lia. }
    rewrite (IH _ _ _ _ _ (S q + length (fst b))%nat) by exact Hq'.
    subst b.
    cbn zeta. unfold roots; cbn [andb].
    destruct (build (mrb_int_bits env) (S q) x) as [e1 v1]; cbn [fst snd].
    destruct (build_entries _ l _ _) as [r1 r2]; cbn [fst snd].
    unfold log_entries. cbn [app length seq].
    rewrite <- (app_assoc exts), <- (app_assoc a), <- (app_assoc sk).
    now rewrite map_app, length_app, seq_app.
Qed.

Lemma ctx_ready_array values :
  ctx_ready (NodeArray values) cs cm ->
  Forall (fun v => ctx_ready v cs cm) values.
Proof.
  intros [H|H].
  - apply all_list_Forall in H. eapply Forall_impl; [exact H|].
    intros v Hv. now left.
  - apply Forall_forall. intros v _. now right.
Qed.

Lemma ctx_ready_map entries :
  ctx_ready (NodeMap entries) cs cm ->
  Forall (fun kv => ctx_ready (snd kv) cs cm) entries.
Proof.
  intros [H|H].
  - apply all_entries_Forall in H. eapply Forall_impl; [exact H|].
    intros v [_ Hv]. now left.
  - apply Forall_forall. intros v _. now right.
Qed.

(** Running a conversion: the result, the heap, the arena and the log. *)
Lemma mpv_to_mrb_root_run node :
  well_tagged (formats env) node = true -> ctx_ready node cs cm ->
  conv_ok node.
Proof.
  induction node as [s|f|i|d|values IH|entries IH|f]
    using mpv_node_rect_nested;
    intros Ht Hr root h a sk p ->.
  - cbn [mpv_to_mrb_root build fst snd diag length].
    unfold roots, mrb_str_new_cstr. rewrite andb_false_r. cbn [seq].
    unfold log_entries; cbn [map]. rewrite app_nil_r.
    now apply mrb_obj_alloc_run.
  - cbn. unfold ret, live, roots. rewrite andb_false_r. cbn.
    now rewrite !app_nil_r.
  - cbn. unfold ret, live, roots. rewrite andb_false_r. cbn.
    now rewrite !app_nil_r.
  - cbn. unfold ret, live, roots. rewrite andb_false_r. cbn.
    now rewrite !app_nil_r.
  - assert (Hc : Forall conv_ok values).
    { cbn in Ht. apply all_list_Forall in Ht.
      apply ctx_ready_array in Hr.
      revert Ht Hr. induction IH as [|x l Hx _ IHl]; intros Ht Hr;
        constructor; inversion Ht; inversion Hr; subst; auto. }
    cbn [mpv_to_mrb_root build fst snd].
    erewrite bind_Ok by (now apply mrb_obj_alloc_run).
    erewrite bind_Ok by apply mrb_gc_arena_save_run.
    erewrite bind_Ok; cycle 1.
    { apply (array_loop _ Hc h [] [] _ _ (S (length h))). cbn. lia. }
    cbn zeta. cbn [app].
    destruct (build_list _ values _) as [r1 r2]; cbn [fst snd length].
    destruct root; unfold roots; cbn [andb is_collection].
    + erewrite bind_Ok by apply mrb_gc_arena_restore_run.
      unfold ret. now rewrite take_app_length.
    + unfold bind, ret. cbn [seq].
      now rewrite <- (app_assoc a).
  - assert (Hc : Forall (fun kv => conv_ok (snd kv)) entries).
    { cbn in Ht. apply all_entries_Forall in Ht.
      apply ctx_ready_map in Hr.
      revert Ht Hr. induction IH as [|x l Hx _ IHl]; intros Ht Hr;
        constructor; inversion Ht as [|? ? [_ ?] ?]; inversion Hr; subst;
        auto. }
    cbn [mpv_to_mrb_root build fst snd].
    erewrite bind_Ok by (now apply mrb_obj_alloc_run).
    erewrite bind_Ok by apply mrb_gc_arena_save_run.
    erewrite bind_Ok; cycle 1.
    { apply (map_loop _ Hc h [] [] _ _ (S (length h))). cbn. lia. }
    cbn zeta. cbn [app].
    destruct (build_entries _ entries _ _) as [r1 r2]; cbn [fst snd length].
    destruct root; unfold roots; cbn [andb is_collection].
    + erewrite bind_Ok by apply mrb_gc_arena_restore_run.
      unfold ret. now rewrite take_app_length.
    + unfold bind, ret. cbn [seq].
      now rewrite <- (app_assoc a).
  - cbn [well_tagged] in Ht. apply negb_true_iff in Ht.
    destruct Hr as [Hr|[Hc Hm]]; [discriminate|].
    cbn [mpv_to_mrb_root build fst snd diag]. rewrite Ht.
    erewrite bind_Ok by (now apply get_ctx_run).
    erewrite bind_Ok by (now apply MP_ERR_run).
    unfold ret, roots. rewrite andb_false_r. cbn [seq length].
    now rewrite !app_nil_r.
Qed.
End Runs.

(** ** Reading the converted value back *)

Lemma reify_list_tbl_set (g : mrb_value -> option tvalue) tbl ttbl k v t :
  reify_list (reify_entry g) tbl = Some ttbl ->
  g v = Some t ->
  reify_list (reify_entry g) (tbl_set tbl (key_str k) v)
  = Some (tbl_set ttbl k t).
Proof.
  intros Htbl Hv. revert ttbl Htbl.
  induction tbl as [|[k' v'] tbl IH]; intros ttbl Htbl.
  - cbn in *. injection Htbl as <-. unfold reify_entry; cbn. now rewrite Hv.
  - cbn [reify_list tbl_set] in *.
    unfold reify_entry at 1 in Htbl; cbn [fst snd] in Htbl.
    destruct k' as [s'|]; [|discriminate].
    destruct (g v') as [t'|] eqn:Hv'; [|discriminate].
    destruct (reify_list _ tbl) as [ttbl'|] eqn:Hrest; [|discriminate].
    injection Htbl as <-. cbn [tbl_set].
    destruct (decide (key_str s' = key_str k)) as [Heq|Hne].
    + injection Heq as ->. rewrite decide_True by reflexivity.
      cbn [reify_list]. unfold reify_entry at 1; cbn [fst snd].
      now rewrite Hv, Hrest.
    + rewrite decide_False by congruence.
      cbn [reify_list]. unfold reify_entry at 1; cbn [fst snd].
      now rewrite Hv', (IH _ eq_refl).
Qed.

Lemma app_cons_middle {A} (pre : list A) x b r rest :
  pre ++ (x :: b ++ r) ++ rest = (pre ++ x :: b) ++ r ++ rest.
Proof.
  rewrite <- (app_assoc pre). cbn. do 2 f_equal. symmetry. apply app_assoc.
Qed.

Section Reify.
Variable bits : Z.

Local Abbreviation image := (shape c_str (wrap bits)).

Local Abbreviation reads_back := (reads_back bits).

Lemma reify_build_list values :
  Forall reads_back values ->
  forall fuel pre rest q, q = length pre ->
    (height_list height values <= fuel)%nat ->
    let r := build_list (build bits) values q in
    reify_list (reify fuel (pre ++ fst r ++ rest)) (snd r)
    = Some (shape_list image values).
Proof.
  induction 1 as [|x l Hx _ IH]; intros fuel pre rest q Hq Hf; [reflexivity|].
  cbn [build_list height_list shape_list] in *. cbn zeta.
  specialize (Hx fuel pre
                (fst (build_list (build bits) l
                        (q + length (fst (build bits q x)))) ++ rest)
                q Hq ltac:(lia)).
  specialize (IH fuel (pre ++ fst (build bits q x)) rest
                (q + length (fst (build bits q x)))%nat
                ltac:(rewrite length_app; lia) ltac:(lia)).
  cbn zeta in Hx, IH. cbn [fst snd reify_list].
  rewrite <- (app_assoc (fst (build bits q x))).
  rewrite Hx. rewrite <- (app_assoc pre) in IH. now rewrite IH.
Qed.

Lemma reify_build_entries entries :
  Forall (fun kv => reads_back (snd kv)) entries ->
  forall fuel pre rest q tbl ttbl, q = length pre ->
    (height_entries height entries <= fuel)%nat ->
    let r := build_entries (build bits) entries q tbl in
    reify_list (reify_entry (reify fuel (pre ++ fst r ++ rest))) tbl
    = Some ttbl ->
    reify_list (reify_entry (reify fuel (pre ++ fst r ++ rest))) (snd r)
    = Some (shape_entries c_str image entries ttbl).
Proof.
  induction 1 as [|[k x] l Hx _ IH]; intros fuel pre rest q tbl ttbl Hq Hf;
    [intros r; exact id|].
  cbn [build_entries height_entries shape_entries fst snd] in *. cbn zeta.
  set (b := build bits (S q) x) in *.
  set (r := build_entries (build bits) l (S q + length (fst b))
              (tbl_set tbl (key_str (c_str k)) (snd b))) in *.
  intros Htbl.
  specialize (Hx fuel (pre ++ [RString (c_str k)]) (fst r ++ rest) (S q)
                ltac:(rewrite length_app; cbn; lia) ltac:(lia)).
  cbn zeta in Hx. fold b in Hx.
  assert (Heq : pre ++ (RString (c_str k) :: fst b ++ fst r) ++ rest
                = (pre ++ RString (c_str k) :: fst b) ++ fst r ++ rest).
  { apply app_cons_middle. }
  rewrite Heq in *.
  apply (IH fuel (pre ++ RString (c_str k) :: fst b) rest);
    [rewrite length_app; cbn; lia | lia |].
  fold r. apply reify_list_tbl_set; [exact Htbl|].
  rewrite <- Hx. f_equal.
  rewrite <- !(app_assoc pre). reflexivity.
Qed.

Lemma reify_build node : reads_back node.
Proof.
  induction node as [s|f|i|d|values IH|entries IH|f]
    using mpv_node_rect_nested; intros fuel h rest p Hp Hf; cbn zeta.
  - destruct fuel as [|fuel]; [cbn in Hf; lia|].
    cbn [build fst snd reify]. cbn [app].
    now rewrite list_lookup_middle.
  - now destruct fuel.
  - now destruct fuel.
  - now destruct fuel.
  - destruct fuel as [|fuel]; [cbn in Hf; lia|].
    cbn [build fst snd reify height] in *.
    rewrite <- app_comm_cons, list_lookup_middle by exact Hp.
    replace (h ++ RArray (snd (build_list (build bits) values (S p)))
               :: fst (build_list (build bits) values (S p)) ++ rest)
      with ((h ++ [RArray (snd (build_list (build bits) values (S p)))])
              ++ fst (build_list (build bits) values (S p)) ++ rest)
      by now rewrite <- app_assoc.
    rewrite (reify_build_list values IH fuel _ rest (S p))
      by (rewrite ?length_app; cbn; lia).
    reflexivity.
  - destruct fuel as [|fuel]; [cbn in Hf; lia|].
    cbn [build fst snd reify height] in *.
    rewrite <- app_comm_cons, list_lookup_middle by exact Hp.
    replace (h ++ RHash (snd (build_entries (build bits) entries (S p) []))
               :: fst (build_entries (build bits) entries (S p) []) ++ rest)
      with ((h ++ [RHash (snd (build_entries (build bits) entries (S p) []))])
              ++ fst (build_entries (build bits) entries (S p) []) ++ rest)
      by now rewrite <- app_assoc.
    rewrite (reify_build_entries entries IH fuel _ rest (S p) [] [])
      by (rewrite ?length_app; cbn; (lia || reflexivity)).
    reflexivity.
  - now destruct fuel.
Qed.
End Reify.

(** ** When the converted value mirrors the node *)

Lemma c_str_nul_free s : nul_free s = true -> c_str s = s.
Proof.
  induction s as [|a s IH]; cbn; [reflexivity|].
  intros H. apply andb_prop in H as [Ha Hs].
  apply negb_true_iff in Ha. rewrite Ha. now rewrite IH.
Qed.

Lemma wrap_in_range bits i :
  0 < bits -> in_range bits i = true -> wrap bits i = i.
Proof.
  unfold in_range, wrap. intros Hb H.
  apply andb_prop in H as [Hlo Hhi].
  apply Z.leb_le in Hlo. apply Z.ltb_lt in Hhi.
  assert (Hp : 2 ^ bits = 2 * 2 ^ (bits - 1)).
  { rewrite <- Z.pow_succ_r by lia. f_equal. lia. }
  rewrite Z.mod_small by lia. lia.
Qed.

Lemma in_range_mono bits i :
  64 <= bits -> in_range 64 i = true -> in_range bits i = true.
Proof.
  unfold in_range. intros Hb H.
  apply andb_prop in H as [Hlo Hhi].
  apply Z.leb_le in Hlo. apply Z.ltb_lt in Hhi.
  assert (Hp : 2 ^ (64 - 1) <= 2 ^ (bits - 1))
    by (apply Z.pow_le_mono_r; lia).
  apply andb_true_intro. split; [apply Z.leb_le | apply Z.ltb_lt]; lia.
Qed.

Lemma wrap_fits bits i : in_range bits i = true -> wrap bits i = i.
Proof.
  intros H. destruct (Z_lt_le_dec 0 bits) as [Hb|Hb].
  - now apply wrap_in_range.
  - unfold in_range in H. apply andb_prop in H as [Hlo Hhi].
    apply Z.leb_le in Hlo. apply Z.ltb_lt in Hhi.
    rewrite Z.pow_neg_r in Hlo, Hhi by lia. lia.
Qed.

Lemma well_formed_ints_fit bits node :
  64 <= bits -> well_formed node = true -> ints_fit bits node = true.
Proof.
  intros Hb.
  induction node as [s|f|i|d|values IH|entries IH|f]
    using mpv_node_rect_nested; intros Hwf; cbn [ints_fit well_formed] in *;
    try reflexivity.
  - now apply in_range_mono.
  - apply all_list_Forall in Hwf. revert Hwf.
    induction IH as [|x l Hx _ IHl]; intros Hwf; [reflexivity|].
    inversion Hwf; subst. cbn [all_list].
    rewrite Hx, IHl by assumption. reflexivity.
  - apply all_entries_Forall in Hwf. revert Hwf.
    induction IH as [|[k x] l Hx _ IHl]; intros Hwf; [reflexivity|].
    inversion Hwf as [|? ? [Hk Hv] Hl]; subst. cbn [all_entries fst snd] in *.
    rewrite Hx, IHl by assumption. reflexivity.
Qed.

(** The tree of a node whose strings are C strings and whose integers fit
    is its mirror. *)
Lemma image_mirror_fit bits node :
  well_formed node = true -> ints_fit bits node = true ->
  shape c_str (wrap bits) node = mirror node.
Proof.
  unfold mirror.
  induction node as [s|f|i|d|values IH|entries IH|f]
    using mpv_node_rect_nested; intros Hwf Hfit;
    cbn [shape well_formed ints_fit] in *.
  - now rewrite c_str_nul_free.
  - reflexivity.
  - now rewrite wrap_fits.
  - reflexivity.
  - f_equal. apply all_list_Forall in Hwf, Hfit. revert Hwf Hfit.
    induction IH as [|x l Hx _ IHl]; intros Hwf Hfit; [reflexivity|].
    inversion Hwf; inversion Hfit; subst. cbn [shape_list].
    rewrite Hx, IHl by assumption. reflexivity.
  - f_equal. apply all_entries_Forall in Hwf, Hfit. revert Hwf Hfit.
    generalize (@nil (string * tvalue)).
    induction IH as [|[k x] l Hx _ IHl]; intros tbl Hwf Hfit; [reflexivity|].
    inversion Hwf as [|? ? [Hk Hv] Hl]; subst.
    inversion Hfit as [|? ? [_ Hf] Hfl]; subst.
    cbn [shape_entries fst snd] in *.
    rewrite Hx by assumption. rewrite c_str_nul_free by exact Hk.
    now apply IHl.
  - reflexivity.
Qed.

(** ** The functions a script calls *)


Lemma bind_ext {A B} (m : M A) (k1 k2 : A -> M B) w :
  (forall a w', k1 a w' = k2 a w') -> bind m k1 w = bind m k2 w.
Proof. intros H. unfold bind. destruct (m w); auto. Qed.

Section Calls.
Variable env : environment.
Variables (cs : gmap string mrb_value)
          (ms : gmap (string * string) mrb_func)
          (e : option exception) (ar : list mrb_value)
          (c : script_ctx) (tr : list event).
Hypothesis Hcs : cs !! "mpctx" = Some (mrb_cptr_v cptr_ctx).

Local Abbreviation cm := (Some c).
Local Abbreviation world_at h a sk := (live h a cs ms e ar cm sk tr).
Local Abbreviation stays := (stays cs ms e ar cm tr).

Lemma bound : ctx_bound cs cm.
Proof. split; [exact Hcs | eexists; reflexivity]. Qed.

Lemma mrb_get_args_s_run h a sk p bytes :
  ar = [mrb_obj p] -> h !! p = Some (RString bytes) ->
  mrb_get_args_s mrb_addr (world_at h a sk)
  = Ok (c_str bytes, Z.of_nat (String.length bytes)) (world_at h a sk).
Proof.
  intros Har Hp. unfold mrb_get_args_s, bind, mrb_get, live.
  cbn [interp mrb_args mrb_heap]. now rewrite Har, Hp.
Qed.

Lemma mrb_get_args_s_total h a sk :
  (exists r, mrb_get_args_s mrb_addr (world_at h a sk)
             = Ok r (world_at h a sk)) \/
  (exists ex, mrb_get_args_s mrb_addr (world_at h a sk)
              = Raised ex (world_at h a sk)).
Proof.
  unfold mrb_get_args_s, bind, mrb_get, live.
  cbn [interp mrb_args mrb_heap].
  destruct ar as [|[| | | | |p] [|]]; try (right; eexists; reflexivity).
  destruct (h !! p) as [[]|]; try (right; eexists; reflexivity).
  left; eexists; reflexivity.
Qed.

(** [_log]: the text that reaches the sink is the message as a C string. *)
Lemma log_run self h a sk p bytes :
  ar = [mrb_obj p] -> h !! p = Some (RString bytes) ->
  _log mrb_addr self (world_at h a sk)
  = Ok mrb_nil (world_at h a (sk ++ [(ctx_log c, MSGL_ERR, c_str bytes)])).
Proof.
  intros Har Hp. unfold _log.
  erewrite bind_Ok by (now apply get_ctx_run).
  erewrite bind_Ok by (now apply (mrb_get_args_s_run _ _ _ p bytes)).
  erewrite bind_Ok by (now apply MP_ERR_run).
  reflexivity.
Qed.

Lemma log_total self h a sk :
  stays (_log mrb_addr self (world_at h a sk)).
Proof.
  unfold _log.
  erewrite bind_Ok by (now apply get_ctx_run).
  destruct (mrb_get_args_s_total h a sk) as [[r Hr]|[ex Hr]].
  - erewrite bind_Ok by exact Hr.
    erewrite bind_Ok by (now apply MP_ERR_run).
    cbn. now eexists _, _, _.
  - erewrite bind_Raised by exact Hr. cbn. now eexists _, _, _.
Qed.

(** [get_node] when the host reports an error: one line, and [false]. *)
Lemma get_node_failed h a sk p bytes :
  ar = [mrb_obj p] -> h !! p = Some (RString bytes) ->
  fst (mpv_get_property (ctx_client c) (c_str bytes)) < 0 ->
  get_node env mrb_addr (world_at h a sk)
  = Ok (false, None)
      (world_at h a
         (sk ++ [(ctx_log c, MSGL_ERR,
                  get_property_failed env (c_str bytes)
                    (fst (mpv_get_property (ctx_client c) (c_str bytes))))])).
Proof.
  intros Har Hp Herr. unfold get_node.
  erewrite bind_Ok by (now apply get_ctx_run).
  erewrite bind_Ok by (now apply (mrb_get_args_s_run _ _ _ p bytes)).
  cbn [fst]. erewrite bind_Ok by reflexivity. cbn zeta.
  apply Z.ltb_lt in Herr as Hlt. rewrite Hlt.
  erewrite bind_Ok by (now apply MP_ERR_run).
  assert (Hle : (0 <=? fst (mpv_get_property (ctx_client c) (c_str bytes)))
                = false) by (apply Z.leb_gt; lia).
  unfold ret. now rewrite Hle.
Qed.

Lemma get_property_failed_run self h a sk p bytes :
  ar = [mrb_obj p] -> h !! p = Some (RString bytes) ->
  fst (mpv_get_property (ctx_client c) (c_str bytes)) < 0 ->
  _get_property env mrb_addr self (world_at h a sk)
  = Ok mrb_nil
      (world_at h a
         (sk ++ [(ctx_log c, MSGL_ERR,
                  get_property_failed env (c_str bytes)
                    (fst (mpv_get_property (ctx_client c) (c_str bytes))))])).
Proof.
  intros Har Hp Herr. unfold _get_property.
  erewrite bind_Ok by (now apply (get_node_failed _ _ _ p bytes)). reflexivity.
Qed.

Hypothesis Hhost : host_ok (formats env) (ctx_client c).

Lemma get_node_total h a sk :
  (exists ex, get_node env mrb_addr (world_at h a sk)
              = Raised ex (world_at h a sk)) \/
  (exists sk', get_node env mrb_addr (world_at h a sk)
               = Ok (false, None) (world_at h a sk')) \/
  (exists node, well_tagged (formats env) node = true /\
                get_node env mrb_addr (world_at h a sk)
                = Ok (true, Some node) (world_at h a sk)).
Proof.
  unfold get_node.
  erewrite bind_Ok by (now apply get_ctx_run).
  destruct (mrb_get_args_s_total h a sk) as [[r Hr]|[ex Hr]].
  - erewrite bind_Ok by exact Hr.
    erewrite bind_Ok by reflexivity. cbn zeta.
    set (name := fst r).
    destruct (Z.ltb_spec (fst (mpv_get_property (ctx_client c) name)) 0)
      as [Hlt|Hge].
    + right; left.
      erewrite bind_Ok by (now apply MP_ERR_run).
      assert (Hle : (0 <=? fst (mpv_get_property (ctx_client c) name))
                    = false) by (apply Z.leb_gt; lia).
      unfold ret. rewrite Hle. now eexists.
    + right; right.
      destruct (Hhost name Hge) as [node [Hnode Htag]].
      exists node. split; [exact Htag|].
      erewrite bind_Ok by reflexivity.
      assert (Hle : (0 <=? fst (mpv_get_property (ctx_client c) name))
                    = true) by (apply Z.leb_le; lia).
      unfold ret. now rewrite Hle, Hnode.
  - left. exists ex. now erewrite bind_Raised by exact Hr.
Qed.

Lemma get_property_total self h a sk :
  stays (_get_property env mrb_addr self (world_at h a sk)).
Proof.
  unfold _get_property.
  destruct (get_node_total h a sk)
    as [[ex Hr]|[[sk' Hr]|[node [Htag Hr]]]].
  - erewrite bind_Raised by exact Hr. cbn. now eexists _, _, _.
  - erewrite bind_Ok by exact Hr. cbn. now eexists _, _, _.
  - erewrite bind_Ok by exact Hr. cbn [fst snd]. unfold mpv_to_mrb.
    rewrite (mpv_to_mrb_root_run env cs ms e ar cm tr node Htag
               (or_intror bound) true h a sk (length h) eq_refl).
    cbn. now eexists _, _, _.
Qed.

(** [_property_list] is the root conversion of the array of the names. *)
Lemma property_list_loop mrb ary props w :
  for_each (fun prop_name =>
              name <- mrb_str_new_cstr mrb prop_name ;;
              mrb_ary_push mrb ary name) props w
  = for_each (fun value =>
                item <- mpv_to_mrb_root env mrb value false ;;
                mrb_ary_push mrb ary item) (NodeString <$> props) w.
Proof.
  revert w. induction props as [|x l IH]; intros w; [reflexivity|].
  cbn [for_each fmap list_fmap]. apply bind_ext. intros _ w'. apply IH.
Qed.

Lemma property_list_as_array mrb self w :
  _property_list env mrb self w
  = mpv_to_mrb_root env mrb
      (NodeArray (NodeString <$> mp_get_property_list env)) true w.
Proof.
  unfold _property_list. cbn [mpv_to_mrb_root]. cbn zeta.
  apply bind_ext. intros ary w1. apply bind_ext. intros ai w2.
  unfold bind at 1 3. rewrite property_list_loop.
  reflexivity.
Qed.

Lemma well_tagged_strings l :
  well_tagged (formats env) (NodeArray (NodeString <$> l)) = true.
Proof. cbn. induction l; cbn; auto. Qed.

Lemma unsupported_free_strings l :
  unsupported_free (NodeArray (NodeString <$> l)) = true.
Proof. cbn. induction l; cbn; auto. Qed.

Lemma property_list_total self h a sk :
  stays (_property_list env mrb_addr self (world_at h a sk)).
Proof.
  rewrite property_list_as_array.
  rewrite (mpv_to_mrb_root_run env cs ms e ar cm tr _
             (well_tagged_strings _) (or_intror bound)
             true h a sk (length h) eq_refl).
  cbn. now eexists _, _, _.
Qed.

Lemma call_func_total f self h a sk :
  stays (call_func env f mrb_addr self (world_at h a sk)).
Proof.
  destruct f; cbn [call_func].
  - apply log_total.
  - apply property_list_total.
  - apply get_property_total.
Qed.
End Calls.

(** ** The backtrace report *)

Lemma append_assoc (s1 s2 s3 : string) :
  (s1 +:+ s2) +:+ s3 = s1 +:+ (s2 +:+ s3).
Proof.
  induction s1 as [|a s1 IH]; [reflexivity|].
  change (String a ((s1 +:+ s2) +:+ s3) = String a (s1 +:+ s2 +:+ s3)).
  now f_equal.
Qed.

Lemma append_nil_r (s : string) : s +:+ EmptyString = s.
Proof.
  induction s as [|a s IH]; [reflexivity|].
  change (String a (s +:+ EmptyString) = String a s). now f_equal.
Qed.

Section Backtrace.
Variables (cs : gmap string mrb_value)
          (ms : gmap (string * string) mrb_func)
          (ar : list mrb_value)
          (c : script_ctx) (tr : list event).
Hypothesis Hcs : cs !! "mpctx" = Some (mrb_cptr_v cptr_ctx).

Local Abbreviation cm := (Some c).
Local Abbreviation world_at e h a sk := (live h a cs ms e ar cm sk tr).

(** [mrb_exc_backtrace] allocates the frames one after the other. *)
Lemma alloc_frames_run frames :
  forall e h a sk,
    map_m (fun f => mrb_obj_alloc mrb_addr (RString f)) frames
      (world_at e h a sk)
    = Ok (mrb_obj <$> seq (length h) (length frames))
        (world_at e (h ++ (RString <$> frames))
           (a ++ seq (length h) (length frames)) sk).
Proof.
  induction frames as [|f l IH]; intros e h a sk.
  - cbn. unfold ret. now rewrite !app_nil_r.
  - cbn [map_m length seq fmap list_fmap].
    erewrite bind_Ok by (now apply mrb_obj_alloc_run).
    erewrite bind_Ok by apply IH.
    unfold ret. rewrite length_app, Nat.add_1_r.
    now rewrite <- (app_assoc h), <- (app_assoc a).
Qed.

(** The loop over the backtrace array reads the frames in order. *)
Lemma frames_loop w st q p elts todo :
  interp w = Some st ->
  mrb_heap st !! q = Some (RArray elts) ->
  forall i err,
    (forall j f, todo !! j = Some f ->
                 elts !! (i + j)%nat = Some (mrb_obj (p + i + j)) /\
                 mrb_heap st !! (p + i + j)%nat = Some (RString f)) ->
    fold_m (fun err i =>
              s <- mrb_ary_entry (mrb_obj q) i ;;
              p <- RSTRING_PTR s ;;
              ret (err +:+ tab +:+ "[" +:+ fmt_d i +:+ "] => " +:+ p +:+ nl))
      (Z.of_nat <$> seq i (length todo)) err w
    = Ok (err +:+ bt_lines i (c_str <$> todo)) w.
Proof.
  intros Hw Hq. induction todo as [|f l IH]; intros i err Hread.
  - cbn. unfold ret. now rewrite append_nil_r.
  - cbn [length seq fmap list_fmap fold_m bt_lines].
    destruct (Hread O f eq_refl) as [He Hh].
    repeat rewrite Nat.add_0_r in He. repeat rewrite Nat.add_0_r in Hh.
    erewrite bind_Ok; cycle 1.
    { erewrite bind_Ok; cycle 1.
      { unfold mrb_ary_entry, bind, heap_read. rewrite Hw, Hq.
        unfold ret. 
        replace (Z.of_nat i <? 0) with false by (symmetry; apply Z.ltb_ge; lia).
        rewrite Nat2Z.id, He. cbn [default from_option id]. reflexivity. }
      erewrite bind_Ok; cycle 1.
      { unfold RSTRING_PTR, bind, heap_read. rewrite Hw, Hh. reflexivity. }
      reflexivity. }
    rewrite IH.
    + f_equal. now rewrite !append_assoc.
    + intros j g Hj. specialize (Hread (S j) g Hj).
      now replace (S i + j)%nat with (i + S j)%nat by lia;
        replace (p + S i + j)%nat with (p + i + S j)%nat by lia.
Qed.

Lemma print_backtrace_run exc h a sk :
  print_backtrace mrb_addr (world_at (Some exc) h a sk)
  = Ok tt
      (world_at (Some exc)
         (h ++ (RString <$> exc_backtrace exc) ++
            [RArray (mrb_obj <$> seq (length h) (length (exc_backtrace exc)));
             RString (exc_inspect exc)])
         (a ++ seq (length h) (S (length (exc_backtrace exc))))
         (sk ++ [(ctx_log c, MSGL_ERR,
                  backtrace_text (c_str (exc_inspect exc))
                    (c_str <$> exc_backtrace exc))])).
Proof.
  unfold print_backtrace.
  erewrite bind_Ok by reflexivity. cbn [mrb_exc].
  unfold mrb_exc_backtrace, mrb_inspect.
  erewrite bind_Ok; cycle 1.
  { erewrite bind_Ok by apply alloc_frames_run.
    now apply mrb_obj_alloc_run. }
  erewrite bind_Ok by apply mrb_gc_arena_save_run.
  erewrite bind_Ok by (now apply mrb_obj_alloc_run).
  assert (Hbt : forall rest,
             (((h ++ (RString <$> exc_backtrace exc)) ++
                 [RArray (mrb_obj <$> seq (length h)
                                        (length (exc_backtrace exc)))]) ++ rest)
               !! length (h ++ (RString <$> exc_backtrace exc))
             = Some (RArray (mrb_obj <$> seq (length h)
                                           (length (exc_backtrace exc))))).
  { intros rest. rewrite <- app_assoc. now apply list_lookup_middle. }
  erewrite bind_Ok; cycle 1.
  { unfold RSTRING_PTR, bind, heap_read, live. cbn [interp mrb_heap].
    rewrite list_lookup_middle by reflexivity. reflexivity. }
  erewrite bind_Ok; cycle 1.
  { unfold mrb_ary_len, bind, heap_read, live. cbn [interp mrb_heap].
    rewrite Hbt. reflexivity. }
  rewrite length_fmap, length_seq, Nat2Z.id.
  erewrite bind_Ok; cycle 1.
  { eapply frames_loop with (p := length h);
      [reflexivity | cbn [mrb_heap]; apply Hbt |].
    intros j f Hj. cbn [mrb_heap]. rewrite !Nat.add_0_r, Nat.add_0_l.
    assert (Hlt : (j < length (exc_backtrace exc))%nat)
      by (eapply lookup_lt_Some; exact Hj).
    split.
    - rewrite list_lookup_fmap, lookup_seq_lt by exact Hlt. reflexivity.
    - rewrite <- !app_assoc.
      rewrite lookup_app_r by lia.
      replace (length h + j - length h)%nat with j by lia.
      rewrite lookup_app_l by (rewrite length_fmap; exact Hlt).
      now rewrite list_lookup_fmap, Hj. }
  erewrite bind_Ok by apply mrb_gc_arena_restore_run.
  erewrite bind_Ok by (now apply get_ctx_run).
  erewrite bind_Ok by (apply MP_ERR_run; eexists; reflexivity).
  unfold talloc_free_str, ret.
  f_equal. unfold live, log_entries, backtrace_text; cbn [map log_of].
  rewrite take_app_length.
  rewrite <- !(app_assoc h), <- (app_assoc a). cbn [app].
  rewrite length_app, length_fmap.
  replace (S (length (exc_backtrace exc)))
    with (length (exc_backtrace exc) + 1)%nat by lia.
  rewrite seq_app. cbn [seq].
  rewrite <- (app_assoc (RString <$> exc_backtrace exc)). cbn [app].
  rewrite !append_assoc. reflexivity.
Qed.
End Backtrace.

(** ** A script run and a load, when nothing is undefined *)

Section Load.
Variable env : environment.
Variables (cs : gmap string mrb_value)
          (ms : gmap (string * string) mrb_func)
          (c : script_ctx) (tr : list event).
Hypothesis Hcs : cs !! "mpctx" = Some (mrb_cptr_v cptr_ctx).
Hypothesis Hhost : host_ok (formats env) (ctx_client c).

Local Abbreviation cm := (Some c).
Local Abbreviation world_at e ar h a sk := (live h a cs ms e ar cm sk tr).

Lemma vm_args_run args :
  forall e ar h a sk,
    exists h' a' argv,
      map_m (vm_arg mrb_addr) args (world_at e ar h a sk)
      = Ok argv (world_at e ar h' a' sk).
Proof.
  induction args as [|x l IH]; intros e ar h a sk.
  - now exists h, a, [].
  - cbn [map_m].
    assert (Hx : exists h1 a1 v,
               vm_arg mrb_addr x (world_at e ar h a sk)
               = Ok v (world_at e ar h1 a1 sk)).
    { destruct x; cbn [vm_arg]; try (now eexists _, _, _).
      eexists _, _, _. now apply mrb_obj_alloc_run. }
    destruct Hx as (h1 & a1 & v & Hx).
    destruct (IH e ar h1 a1 sk) as (h2 & a2 & argv & Hl).
    exists h2, a2, (v :: argv).
    erewrite bind_Ok by exact Hx. erewrite bind_Ok by exact Hl.
    reflexivity.
Qed.

(** A script never leaves the interpreter in an undefined state: it runs
    to its end, with or without a pending exception. *)
Lemma vm_run_total prog :
  forall e ar h a sk,
    exists e' ar' h' a' sk',
      vm_run env mrb_addr prog (world_at e ar h a sk)
      = Ok tt (world_at e' ar' h' a' sk').
Proof.
  induction prog as [|ex|recv meth args k IHk rescue IHr];
    intros e ar h a sk.
  - now eexists _, _, _, _, _.
  - now eexists _, _, _, _, _.
  - cbn [vm_run].
    erewrite bind_Ok by reflexivity. cbn [mrb_methods].
    destruct (ms !! (recv, meth)) as [f|]; [|apply IHr].
    erewrite bind_Ok by apply mrb_gc_arena_save_run.
    destruct (vm_args_run args e ar h a sk) as (h1 & a1 & argv & Hargs).
    erewrite bind_Ok by exact Hargs.
    erewrite bind_Ok by reflexivity.
    pose proof (call_func_total env cs ms e argv c tr Hcs Hhost f mrb_nil
                  h1 a1 sk) as Hcall.
    unfold protect.
    change (set_interp _ _) with (world_at e argv h1 a1 sk).
    destruct (call_func env f mrb_addr mrb_nil (world_at e argv h1 a1 sk))
      as [v w'|ex w'|]; cbn in Hcall; [| |contradiction];
      destruct Hcall as (h2 & a2 & sk2 & ->).
    + erewrite bind_Ok by apply mrb_gc_arena_restore_run. apply IHk.
    + erewrite bind_Ok by apply mrb_gc_arena_restore_run. apply IHr.
Qed.

Lemma print_backtrace_total e ar h a sk :
  exists h' a' sk',
    print_backtrace mrb_addr (world_at e ar h a sk)
    = Ok tt (world_at e ar h' a' sk').
Proof.
  destruct e as [exc|].
  - rewrite (print_backtrace_run cs ms ar c tr Hcs). now eexists _, _, _.
  - now eexists _, _, _.
Qed.

Lemma load_script_total fname prog e ar h a sk :
  files env (mp_get_user_path (global (ctx_mpctx c)) fname) = Some prog ->
  exists e' ar' h' a' sk',
    load_script env mrb_addr fname (world_at e ar h a sk)
    = Ok tt (world_at e' ar' h' a' sk').
Proof.
  intros Hfile. unfold load_script.
  erewrite bind_Ok by (now apply get_ctx_run).
  erewrite bind_Ok by reflexivity. cbn zeta.
  erewrite bind_Ok by reflexivity. rewrite Hfile.
  erewrite bind_Ok by reflexivity.
  erewrite bind_Ok by reflexivity.
  destruct (vm_run_total prog e ar h a sk) as (e1 & ar1 & h1 & a1 & sk1 & Hrun).
  erewrite bind_Ok; cycle 1.
  { unfold mrb_load_file_cxt. erewrite bind_Ok by reflexivity.
    erewrite bind_Ok by exact Hrun. reflexivity. }
  destruct (print_backtrace_total e1 ar1 h1 a1 sk1) as (h2 & a2 & sk2 & Hbt).
  erewrite bind_Ok by exact Hbt.
  erewrite bind_Ok by reflexivity.
  erewrite bind_Ok by reflexivity.
  now eexists _, _, _, _, _.
Qed.
End Load.

(** A load that finds an interpreter and the file returns 0 and ends with the
    interpreter closed and the context freed, in this order. *)
Lemma load_mruby_total env client fname prog w :
  mrb_open_succeeds env = true ->
  files env (mp_get_user_path (global (mp_client_get_core client)) fname)
  = Some prog ->
  host_ok (formats env) client ->
  exists sk',
    load_mruby env client fname w
    = Ok 0 (mk_world None None sk'
              (trace w ++ [ev_ctx_alloc; ev_mrb_open; ev_mrb_close;
                           ev_ctx_free])).
Proof.
  intros Hopen Hfile Hhost. unfold load_mruby. cbn zeta.
  erewrite bind_Ok by reflexivity.
  erewrite bind_Ok by (unfold mrb_open; rewrite Hopen; reflexivity).
  erewrite bind_Ok by reflexivity.
  erewrite bind_Ok by reflexivity.
  erewrite bind_Ok by reflexivity.
  erewrite bind_Ok by reflexivity.
  erewrite bind_Ok by reflexivity.
  set (ctx := {| ctx_state := mrb_addr; ctx_name := mpv_client_name client;
                 ctx_filename := fname; ctx_log := mp_client_get_log client;
                 ctx_client := client;
                 ctx_mpctx := mp_client_get_core client |}).
  match goal with
  | |- exists _, bind _ _ ?w0 = _ =>
      destruct (load_script_total env
                  (<["mpctx" := mrb_cptr_v cptr_ctx]> ∅)
                  (mrb_methods (default mrb_state_init (interp w0)))
                  ctx ((trace w ++ [ev_ctx_alloc]) ++ [ev_mrb_open])
                  (lookup_insert_eq _ _ _) Hhost fname prog None [] [] []
                  (sink w) Hfile)
        as (e1 & ar1 & h1 & a1 & sk1 & Hrun);
      change w0 with (live [] [] (<["mpctx" := mrb_cptr_v cptr_ctx]> ∅)
                        (mrb_methods (default mrb_state_init (interp w0)))
                        None [] (Some ctx) (sink w)
                        ((trace w ++ [ev_ctx_alloc]) ++ [ev_mrb_open]))
  end.
  erewrite bind_Ok; cycle 1.
  { erewrite bind_Ok by exact Hrun. reflexivity. }
  exists sk1. cbn. now rewrite <- !app_assoc.
Qed.

(** ** What no call inside a load touches *)


Lemma frame_ok_refl w : frame_ok w w.
Proof. now repeat split. Qed.

Lemma frame_ok_trans w1 w2 w3 :
  frame_ok w1 w2 -> frame_ok w2 w3 -> frame_ok w1 w3.
Proof.
  intros (Hc1 & Ht1 & Hi1) (Hc2 & Ht2 & Hi2).
  repeat split; [congruence | congruence | auto].
Qed.

Create HintDb preserves.

Lemma preserves_ret {A} (a : A) : preserves (ret a).
Proof. intros w. apply frame_ok_refl. Qed.

Lemma preserves_undefined {A} : preserves (@undefined A).
Proof. now intros w. Qed.

Lemma preserves_raise {A} ex : preserves (@mrb_exc_raise A ex).
Proof. intros w. apply frame_ok_refl. Qed.

Lemma preserves_bind {A B} (m : M A) (k : A -> M B) :
  preserves m -> (forall a, preserves (k a)) -> preserves (bind m k).
Proof.
  intros Hm Hk w. unfold bind. specialize (Hm w).
  destruct (m w) as [a w1|ex w1|]; [|exact Hm|exact I].
  specialize (Hk a w1). destruct (k a w1); try exact I;
    eapply frame_ok_trans; eassumption.
Qed.

Lemma preserves_protect {A B} (m : M A) (k : A -> M B) rescue :
  preserves m -> (forall a, preserves (k a)) ->
  (forall ex, preserves (rescue ex)) -> preserves (protect m k rescue).
Proof.
  intros Hm Hk Hr w. unfold protect. specialize (Hm w).
  destruct (m w) as [a w1|ex w1|]; [| |exact I].
  - specialize (Hk a w1). destruct (k a w1); try exact I;
      eapply frame_ok_trans; eassumption.
  - specialize (Hr ex w1). destruct (rescue ex w1); try exact I;
      eapply frame_ok_trans; eassumption.
Qed.

Lemma preserves_mrb_get mrb : preserves (mrb_get mrb).
Proof.
  intros w. unfold mrb_get. destruct mrb, (interp w); try exact I.
  apply frame_ok_refl.
Qed.

Lemma preserves_mrb_put mrb st : preserves (mrb_put mrb st).
Proof.
  intros w. unfold mrb_put. destruct mrb, (interp w); try exact I.
  repeat split. intros _. now eexists.
Qed.

Lemma preserves_heap_read v : preserves (heap_read v).
Proof.
  intros w. unfold heap_read. destruct v, (interp w) as [st|]; try exact I.
  destruct (mrb_heap st !! p); [apply frame_ok_refl | exact I].
Qed.

Lemma preserves_ctx_read ctx : preserves (ctx_read ctx).
Proof.
  intros w. unfold ctx_read. destruct ctx, (ctx_mem w); try exact I.
  apply frame_ok_refl.
Qed.

Lemma preserves_emit entry :
  preserves (fun w => Ok tt (set_sink (sink w ++ [entry]) w)).
Proof. intros w. now repeat split. Qed.

Lemma preserves_for_each {A} (body : A -> M unit) l :
  (forall x, preserves (body x)) -> preserves (for_each body l).
Proof.
  intros Hb. induction l as [|x l IH]; cbn [for_each].
  - apply preserves_ret.
  - apply preserves_bind; auto.
Qed.

Lemma preserves_fold_m {A B} (body : B -> A -> M B) l :
  (forall acc x, preserves (body acc x)) ->
  forall acc, preserves (fold_m body l acc).
Proof.
  intros Hb. induction l as [|x l IH]; intros acc; cbn [fold_m].
  - apply preserves_ret.
  - apply preserves_bind; auto.
Qed.

Lemma preserves_map_m {A B} (f : A -> M B) l :
  (forall x, preserves (f x)) -> preserves (map_m f l).
Proof.
  intros Hf. induction l as [|x l IH]; cbn [map_m].
  - apply preserves_ret.
  - apply preserves_bind; [auto|]. intros y.
    apply preserves_bind; [auto|]. intros ys. apply preserves_ret.
Qed.

#[global] Hint Resolve preserves_ret preserves_undefined preserves_raise
  preserves_mrb_get preserves_mrb_put preserves_heap_read preserves_ctx_read
  preserves_emit : preserves.

(** Goes through a definition made of binds, matches and the calls below. *)
Ltac preserves_step :=
  match goal with
  | |- preserves (bind _ _) => apply preserves_bind; [|intros ?]
  | |- preserves (protect _ _ _) =>
      apply preserves_protect; [|intros ?|intros ?]
  | |- preserves (for_each _ _) => apply preserves_for_each; intros ?
  | |- preserves (map_m _ _) => apply preserves_map_m; intros ?
  | |- preserves (fold_m _ _ _) => apply preserves_fold_m; intros ? ?
  | |- preserves (match ?x with _ => _ end) => destruct x
  | |- preserves _ => solve [auto with preserves]
  | |- forall _, _ => intros ?
  end.

Ltac preserves_tac := cbn zeta; repeat preserves_step.

Lemma preserves_mrb_obj_alloc mrb o : preserves (mrb_obj_alloc mrb o).
Proof. unfold mrb_obj_alloc. preserves_tac. Qed.
Lemma preserves_arena_save mrb : preserves (mrb_gc_arena_save mrb).
Proof. unfold mrb_gc_arena_save. preserves_tac. Qed.
Lemma preserves_arena_restore mrb i : preserves (mrb_gc_arena_restore mrb i).
Proof. unfold mrb_gc_arena_restore. preserves_tac. Qed.
#[global] Hint Resolve preserves_mrb_obj_alloc preserves_arena_save
  preserves_arena_restore : preserves.

Lemma preserves_str_new mrb s : preserves (mrb_str_new_cstr mrb s).
Proof. unfold mrb_str_new_cstr. preserves_tac. Qed.
Lemma preserves_ary_new mrb : preserves (mrb_ary_new mrb).
Proof. unfold mrb_ary_new. preserves_tac. Qed.
Lemma preserves_hash_new mrb : preserves (mrb_hash_new mrb).
Proof. unfold mrb_hash_new. preserves_tac. Qed.
Lemma preserves_ary_push mrb ary item : preserves (mrb_ary_push mrb ary item).
Proof. unfold mrb_ary_push. preserves_tac. Qed.
Lemma preserves_hash_set mrb hash key val :
  preserves (mrb_hash_set mrb hash key val).
Proof. unfold mrb_hash_set. preserves_tac. Qed.
Lemma preserves_intern mrb s : preserves (mrb_intern_cstr mrb s).
Proof. unfold mrb_intern_cstr. preserves_tac. Qed.
Lemma preserves_const_get mrb s : preserves (mrb_vm_const_get mrb s).
Proof. unfold mrb_vm_const_get. preserves_tac. Qed.
Lemma preserves_cptr v : preserves (mrb_cptr v).
Proof. unfold mrb_cptr. preserves_tac. Qed.
Lemma preserves_get_args mrb : preserves (mrb_get_args_s mrb).
Proof. unfold mrb_get_args_s. preserves_tac. Qed.
Lemma preserves_RSTRING_PTR s : preserves (RSTRING_PTR s).
Proof. unfold RSTRING_PTR. preserves_tac. Qed.
Lemma preserves_ary_len mrb ary : preserves (mrb_ary_len mrb ary).
Proof. unfold mrb_ary_len. preserves_tac. Qed.
Lemma preserves_ary_entry ary i : preserves (mrb_ary_entry ary i).
Proof. unfold mrb_ary_entry. preserves_tac. Qed.
Lemma preserves_exc_backtrace mrb exc : preserves (mrb_exc_backtrace mrb exc).
Proof. unfold mrb_exc_backtrace. preserves_tac. Qed.
Lemma preserves_inspect mrb exc : preserves (mrb_inspect mrb exc).
Proof. unfold mrb_inspect. preserves_tac. Qed.
Lemma preserves_MP_ERR ctx text : preserves (MP_ERR ctx text).
Proof. unfold MP_ERR. preserves_tac. Qed.
Lemma preserves_talloc_free_str s : preserves (talloc_free_str s).
Proof. unfold talloc_free_str. preserves_tac. Qed.
Lemma preserves_fclose fp : preserves (fclose fp).
Proof. unfold fclose. preserves_tac. Qed.
Lemma preserves_mrbc_new mrb : preserves (mrbc_context_new mrb).
Proof. unfold mrbc_context_new. preserves_tac. Qed.
Lemma preserves_mrbc_filename mrb c s : preserves (mrbc_filename mrb c s).
Proof. unfold mrbc_filename. preserves_tac. Qed.
Lemma preserves_mrbc_free mrb c : preserves (mrbc_context_free mrb c).
Proof. unfold mrbc_context_free. preserves_tac. Qed.
#[global] Hint Resolve preserves_str_new preserves_ary_new preserves_hash_new
  preserves_ary_push preserves_hash_set preserves_intern preserves_const_get
  preserves_cptr preserves_get_args preserves_RSTRING_PTR preserves_ary_len
  preserves_ary_entry preserves_exc_backtrace preserves_inspect
  preserves_MP_ERR preserves_talloc_free_str preserves_fclose
  preserves_mrbc_new preserves_mrbc_filename
  preserves_mrbc_free : preserves.

Lemma preserves_get_ctx mrb : preserves (get_ctx mrb).
Proof. unfold get_ctx. preserves_tac. Qed.
#[global] Hint Resolve preserves_get_ctx : preserves.

Section Preserves.
Variable env : environment.

Lemma preserves_log mrb self : preserves (_log mrb self).
Proof. unfold _log. preserves_tac. Qed.

Lemma preserves_mpv_to_mrb_root mrb node :
  forall root, preserves (mpv_to_mrb_root env mrb node root).
Proof.
  induction node as [s|f|i|d|values IH|entries IH|f]
    using mpv_node_rect_nested; intros root; cbn [mpv_to_mrb_root];
    [preserves_tac..| | |preserves_tac].
  - apply preserves_bind; [auto with preserves|]. intros ary.
    apply preserves_bind; [auto with preserves|]. intros ai.
    apply preserves_bind; [|preserves_tac].
    induction IH as [|x l Hx _ IHl]; cbn [for_each]; [preserves_tac|].
    apply preserves_bind; [|intros _; exact IHl].
    apply preserves_bind; [apply Hx | preserves_tac].
  - apply preserves_bind; [auto with preserves|]. intros hash.
    apply preserves_bind; [auto with preserves|]. intros ai.
    apply preserves_bind; [|preserves_tac].
    induction IH as [|x l Hx _ IHl]; cbn [for_each]; [preserves_tac|].
    apply preserves_bind; [|intros _; exact IHl].
    apply preserves_bind; [auto with preserves|]. intros key.
    apply preserves_bind; [apply Hx | preserves_tac].
Qed.

Lemma preserves_property_list mrb self :
  preserves (_property_list env mrb self).
Proof. unfold _property_list. preserves_tac. Qed.

Lemma preserves_get_node mrb : preserves (get_node env mrb).
Proof. unfold get_node. preserves_tac. Qed.

Lemma preserves_get_property mrb self :
  preserves (_get_property env mrb self).
Proof.
  unfold _get_property, mpv_to_mrb.
  apply preserves_bind; [apply preserves_get_node|]. intros r.
  destruct (fst r); [|preserves_tac].
  destruct (snd r); [apply preserves_mpv_to_mrb_root | preserves_tac].
Qed.

Lemma preserves_call_func f mrb self : preserves (call_func env f mrb self).
Proof.
  destruct f; cbn [call_func].
  - apply preserves_log.
  - apply preserves_property_list.
  - apply preserves_get_property.
Qed.

Lemma preserves_print_backtrace mrb : preserves (print_backtrace mrb).
Proof. unfold print_backtrace. preserves_tac. Qed.

Lemma preserves_vm_run mrb prog : preserves (vm_run env mrb prog).
Proof.
  induction prog as [|ex|recv meth args k IHk rescue IHr]; cbn [vm_run].
  - preserves_tac.
  - unfold vm_set_exc. preserves_tac.
  - apply preserves_bind; [auto with preserves|]. intros st.
    destruct (mrb_methods st !! (recv, meth)); [|apply IHr].
    apply preserves_bind; [auto with preserves|]. intros ai.
    apply preserves_bind.
    { apply preserves_map_m. intros x. destruct x; cbn; preserves_tac. }
    intros argv.
    apply preserves_bind; [unfold vm_set_args; preserves_tac|]. intros _.
    apply preserves_protect.
    + apply preserves_call_func.
    + intros v. apply preserves_bind; [auto with preserves|]. intros _.
      apply IHk.
    + intros ex. apply preserves_bind; [auto with preserves|]. intros _.
      apply IHr.
Qed.

Lemma preserves_load_script mrb fname : preserves (load_script env mrb fname).
Proof.
  unfold load_script.
  apply preserves_bind; [auto with preserves|]. intros ctx.
  apply preserves_bind; [auto with preserves|]. intros c. cbn zeta.
  apply preserves_bind; [unfold fopen; preserves_tac|]. intros fp.
  apply preserves_bind; [auto with preserves|]. intros mrb_ctx.
  apply preserves_bind; [auto with preserves|]. intros _.
  apply preserves_bind.
  { unfold mrb_load_file_cxt.
    apply preserves_bind; [auto with preserves|]. intros _.
    destruct fp; [|preserves_tac].
    apply preserves_bind; [apply preserves_vm_run | preserves_tac]. }
  intros _.
  apply preserves_bind; [apply preserves_print_backtrace|]. intros _.
  preserves_tac.
Qed.
End Preserves.

(** [get_ctx] in any world whose interpreter holds the constant. *)
Lemma get_ctx_run_at w st :
  interp w = Some st ->
  mrb_consts st !! "mpctx" = Some (mrb_cptr_v cptr_ctx) ->
  get_ctx mrb_addr w = Ok cptr_ctx w.
Proof.
  intros Hw Hc.
  unfold get_ctx, mrb_intern_cstr, mrb_vm_const_get, bind, mrb_get, ret.
  repeat (rewrite Hw; cbn beta iota). now rewrite Hc.
Qed.

(** ** Every return of a load *)

(** Without an interpreter the load never reaches its null check: interning
    the symbol goes through the null pointer. *)
Lemma load_mruby_null env client fname w :
  mrb_open_succeeds env = false ->
  load_mruby env client fname w = Undefined.
Proof.
  intros Hopen. unfold load_mruby. cbn zeta.
  erewrite bind_Ok by reflexivity.
  erewrite bind_Ok by (unfold mrb_open; rewrite Hopen; reflexivity).
  erewrite bind_Ok by reflexivity.
  erewrite bind_Ok by reflexivity.
  now rewrite bind_Undefined.
Qed.

Lemma load_mruby_returns env client fname w r w' :
  load_mruby env client fname w = Ok r w' ->
  mrb_open_succeeds env = true /\ r = 0 /\
  interp w' = None /\ ctx_mem w' = None /\
  trace w' = trace w ++ [ev_ctx_alloc; ev_mrb_open; ev_mrb_close; ev_ctx_free].
Proof.
  destruct (mrb_open_succeeds env) eqn:Hopen;
    [|now rewrite load_mruby_null].
  unfold load_mruby. cbn zeta.
  erewrite bind_Ok by reflexivity.
  erewrite bind_Ok by (unfold mrb_open; rewrite Hopen; reflexivity).
  erewrite bind_Ok by reflexivity.
  erewrite bind_Ok by reflexivity.
  erewrite bind_Ok by reflexivity.
  erewrite bind_Ok by reflexivity.
  erewrite bind_Ok by reflexivity.
  match goal with
  | |- bind _ _ ?w0 = _ -> _ =>
      pose proof (preserves_load_script env mrb_addr fname w0) as Hp;
      unfold bind at 1 2;
      destruct (load_script env mrb_addr fname w0) as [[] w1|ex w1|];
      [|discriminate..]
  end.
  destruct Hp as (Hc & Ht & Hi). cbn in Hc, Ht, Hi.
  destruct w1 as [i1 c1 s1 t1]. cbn in Hc, Ht, Hi. subst c1 t1.
  destruct Hi as [st1 ->]; [now eexists|].
  cbn. intros [= <- <-]. cbn. now rewrite <- !app_assoc.
Qed.

(** A load whose script file cannot be opened: [fopen] gives a null stream,
    nothing checks it, and [fclose] is called with it. *)
Lemma load_mruby_missing_file env client fname w :
  mrb_open_succeeds env = true ->
  files env (mp_get_user_path (global (mp_client_get_core client)) fname)
  = None ->
  load_mruby env client fname w = Undefined.
Proof.
  intros Hopen Hfile. unfold load_mruby. cbn zeta.
  erewrite bind_Ok by reflexivity.
  erewrite bind_Ok by (unfold mrb_open; rewrite Hopen; reflexivity).
  erewrite bind_Ok by reflexivity.
  erewrite bind_Ok by reflexivity.
  erewrite bind_Ok by reflexivity.
  erewrite bind_Ok by reflexivity.
  erewrite bind_Ok by reflexivity.
  apply bind_Undefined. apply bind_Undefined. unfold load_script.
  erewrite bind_Ok
    by (eapply get_ctx_run_at; [reflexivity | apply lookup_insert_eq]).
  erewrite bind_Ok by reflexivity. cbn zeta.
  erewrite bind_Ok by reflexivity. cbn [ctx_mpctx set_state]. rewrite Hfile.
  erewrite bind_Ok by reflexivity.
  erewrite bind_Ok by reflexivity.
  erewrite bind_Ok by reflexivity.
  erewrite bind_Ok by reflexivity.
  erewrite bind_Ok by reflexivity.
  reflexivity.
Qed.

(** ** The claims *)

Lemma sample_client_ok : host_ok sample_formats sample_client.
Proof.
  intros name. cbn. destruct (String.eqb name "pause"); cbn; intros H.
  - eexists. split; reflexivity.
  - lia.
Qed.

(** The sample script: two lines reach the sink, the load returns 0. *)
Example sample_script_load :
  match load_mruby sample_env sample_client "ok.mrb" world_init with
  | Ok r w => Some (r, snd <$> sink w, trace w, interp w, ctx_mem w)
  | _ => None
  end
  = Some (0,
          ["hello";
           get_property_failed sample_env "nonexistent.property" (-8)],
          [ev_ctx_alloc; ev_mrb_open; ev_mrb_close; ev_ctx_free],
          None, None).
Proof. vm_compute. reflexivity. Qed.

(** The script that raises: the report reaches the sink, the load returns 0
    all the same. *)
Example sample_fault_report :
  match load_mruby sample_env sample_client "fault.mrb" world_init with
  | Ok r w => Some (r, snd <$> sink w)
  | _ => None
  end
  = Some (0, [backtrace_text "boom (RuntimeError)"
                ["fault.mrb:2:in call"; "fault.mrb:5"]]).
Proof. vm_compute. reflexivity. Qed.

(** No such file: the load runs into [fclose(NULL)]. *)
Example sample_missing_file :
  load_mruby sample_env sample_client "none.mrb" world_init = Undefined.
Proof. vm_compute. reflexivity. Qed.

(** A root conversion: one arena slot, five objects (the array, the string,
    the hash and its two keys), and the tree read back. *)
Example sample_node_converted :
  match mpv_to_mrb_root sample_env mrb_addr sample_node true
          (live [] [] sample_consts ∅ None [] (Some sample_ctx) [] []) with
  | Ok v w =>
      match interp w with
      | Some st => Some (v, mrb_arena st, length (mrb_heap st),
                         reify 3 (mrb_heap st) v)
      | None => None
      end
  | _ => None
  end
  = Some (mrb_obj 0, [O], 5%nat,
          Some (t_ary [t_str "a";
                       t_hash [("k", t_int 5); ("f", t_bool true)]])).
Proof. vm_compute. reflexivity. Qed.

Lemma unsupported_free_well_tagged fm node :
  unsupported_free node = true -> well_tagged fm node = true.
Proof.
  induction node as [s|f|i|d|values IH|entries IH|f]
    using mpv_node_rect_nested; cbn; try reflexivity; try discriminate.
  - induction IH as [|x l Hx _ IHl]; cbn; [reflexivity|].
    intros H. apply andb_prop in H as [H1 H2]. now rewrite Hx, IHl.
  - induction IH as [|x l Hx _ IHl]; cbn; [reflexivity|].
    intros H. apply andb_prop in H as [H1 H2]. now rewrite Hx, IHl.
Qed.

Lemma unsupported_free_diag node :
  unsupported_free node = true -> diag node = [].
Proof.
  induction node as [s|f|i|d|values IH|entries IH|f]
    using mpv_node_rect_nested; cbn; try reflexivity; try discriminate.
  - induction IH as [|x l Hx _ IHl]; cbn; [reflexivity|].
    intros H. apply andb_prop in H as [H1 H2]. now rewrite Hx, IHl.
  - induction IH as [|x l Hx _ IHl]; cbn; [reflexivity|].
    intros H. apply andb_prop in H as [H1 H2]. now rewrite Hx, IHl.
Qed.

(** C6: a flag node converts to the boolean [flag >= 0]: true exactly when
    the integer of the flag is not negative, so 0 and 5 give true and -1
    gives false; the conversion touches nothing else. *)
Theorem flag_converts_by_sign :
  (forall env mrb flag root w,
      mpv_to_mrb_root env mrb (NodeFlag flag) root w
      = Ok (mrb_bool_value (bool_decide (0 <= flag))) w) /\
  (forall env mrb root w,
      mpv_to_mrb_root env mrb (NodeFlag 0) root w = Ok (mrb_bool true) w /\
      mpv_to_mrb_root env mrb (NodeFlag (-1)) root w = Ok (mrb_bool false) w /\
      mpv_to_mrb_root env mrb (NodeFlag 5) root w = Ok (mrb_bool true) w).
Proof.
  split; [|now repeat split].
  intros env mrb flag root w. cbn. unfold ret. do 2 f_equal.
  destruct (Z.leb_spec 0 flag).
  - now rewrite bool_decide_eq_true_2.
  - rewrite bool_decide_eq_false_2 by lia. reflexivity.
Qed.

(** C5: a node whose format tag is none of the six recognised ones converts
    to nil, the sink receives exactly one line, which names the tag, and no
    exception is raised. *)
Theorem unsupported_format_gives_nil env format root h a cs ms e ar c sk tr :
  recognized (formats env) format = false ->
  cs !! "mpctx" = Some (mrb_cptr_v cptr_ctx) ->
  mpv_to_mrb_root env mrb_addr (NodeOther format) root
    (live h a cs ms e ar (Some c) sk tr)
  = Ok mrb_nil_value
      (live h a cs ms e ar (Some c)
         (sk ++ [(ctx_log c, MSGL_ERR, diag_line format)]) tr) /\
  contains (diag_line format) (fmt_d format).
Proof.
  intros Hfmt Hcs. split.
  - cbn [mpv_to_mrb_root]. rewrite Hfmt.
    erewrite bind_Ok by (now apply get_ctx_run).
    erewrite bind_Ok by (apply MP_ERR_run; now eexists).
    reflexivity.
  - unfold contains, diag_line. now eexists _, _.
Qed.

Lemma unsupported_format_gives_nil_witness :
  mpv_to_mrb_root sample_env mrb_addr (NodeOther 9) true
    (live [] [] sample_consts ∅ None [] (Some sample_ctx) [] [])
  = Ok mrb_nil_value
      (live [] [] sample_consts ∅ None [] (Some sample_ctx)
         ([] ++ [(ctx_log sample_ctx, MSGL_ERR, diag_line 9)]) []) /\
  contains (diag_line 9) (fmt_d 9).
Proof.
  apply (unsupported_format_gives_nil sample_env 9 true [] [] sample_consts ∅
           None [] sample_ctx [] []); reflexivity.
Defined.

(** C7: with an uncaught exception pending, [print_backtrace] sends the sink
    one message: the description of the exception, the line [backtrace:],
    and one line [\t[i] => frame] for each frame, numbered from 0 in order;
    without frames the message ends after the header.  The description and
    the frames are the C strings behind the Ruby strings, which are the
    strings themselves when they hold no NUL.  Without a pending exception
    nothing is sent. *)
Theorem backtrace_is_reported h a cs ms ar c sk tr exc :
  cs !! "mpctx" = Some (mrb_cptr_v cptr_ctx) ->
  let text := backtrace_text (c_str (exc_inspect exc))
                (c_str <$> exc_backtrace exc) in
  (exists h' a',
      print_backtrace mrb_addr (live h a cs ms (Some exc) ar (Some c) sk tr)
      = Ok tt (live h' a' cs ms (Some exc) ar (Some c)
                 (sk ++ [(ctx_log c, MSGL_ERR, text)]) tr)) /\
  (exc_backtrace exc = [] ->
   text = c_str (exc_inspect exc) +:+ nl +:+ "backtrace:" +:+ nl) /\
  (nul_free (exc_inspect exc) = true ->
   Forall (fun f => nul_free f = true) (exc_backtrace exc) ->
   text = backtrace_text (exc_inspect exc) (exc_backtrace exc)) /\
  print_backtrace mrb_addr (live h a cs ms None ar (Some c) sk tr)
  = Ok tt (live h a cs ms None ar (Some c) sk tr).
Proof.
  intros Hcs text. repeat split.
  - eexists _, _. now apply print_backtrace_run.
  - intros Hnil. unfold text. rewrite Hnil. cbn [fmap list_fmap].
    unfold backtrace_text. cbn [bt_lines]. now rewrite append_nil_r.
  - intros Hd Hf. unfold text. rewrite c_str_nul_free by exact Hd.
    f_equal. induction Hf as [|f l Hx _ IH]; [reflexivity|].
    cbn [fmap list_fmap]. rewrite c_str_nul_free by exact Hx. f_equal.
    exact IH.
Qed.

Lemma backtrace_is_reported_witness :
  let text := backtrace_text (c_str (exc_inspect sample_fault))
                (c_str <$> exc_backtrace sample_fault) in
  (exists h' a',
      print_backtrace mrb_addr
        (live [] [] sample_consts ∅ (Some sample_fault) [] (Some sample_ctx)
           [] [])
      = Ok tt (live h' a' sample_consts ∅ (Some sample_fault) []
                 (Some sample_ctx) ([] ++ [(7%nat, MSGL_ERR, text)]) [])) /\
  (exc_backtrace sample_fault = [] ->
   text = c_str (exc_inspect sample_fault) +:+ nl +:+ "backtrace:" +:+ nl) /\
  (nul_free (exc_inspect sample_fault) = true ->
   Forall (fun f => nul_free f = true) (exc_backtrace sample_fault) ->
   text = backtrace_text (exc_inspect sample_fault)
            (exc_backtrace sample_fault)) /\
  print_backtrace mrb_addr
    (live [] [] sample_consts ∅ None [] (Some sample_ctx) [] [])
  = Ok tt (live [] [] sample_consts ∅ None [] (Some sample_ctx) [] []).
Proof.
  apply (backtrace_is_reported [] [] sample_consts ∅ [] sample_ctx [] []
           sample_fault).
  reflexivity.
Defined.

(** C8, as the code has it: for a well-formed node without a node of another
    format, all of whose integers lie in the range of the interpreter's
    integer type, as every integer of a well-formed node does when that type
    holds 64 bits, the conversion returns a value that reads back from the
    heap as the mirror of the node: scalars as themselves, an array as the
    converted values in order, a map as the result of setting its pairs in
    the order of the source, at any depth.  It logs nothing, only adds
    objects to the heap, and does so for a root call and for a nested call
    alike. *)
Theorem conversion_mirrors_node env node root h a cs ms e ar cm sk tr :
  well_formed node = true ->
  unsupported_free node = true ->
  64 <= mrb_int_bits env \/ ints_fit (mrb_int_bits env) node = true ->
  exists v ext a',
    mpv_to_mrb_root env mrb_addr node root (live h a cs ms e ar cm sk tr)
    = Ok v (live (h ++ ext) a' cs ms e ar cm sk tr) /\
    reify (height node) (h ++ ext) v = Some (mirror node).
Proof.
  intros Hwf Hfree Hbits.
  assert (Hfit : ints_fit (mrb_int_bits env) node = true).
  { destruct Hbits as [Hbits|Hfit]; [|exact Hfit].
    now apply well_formed_ints_fit. }
  pose proof (mpv_to_mrb_root_run env cs ms e ar cm tr node
                (unsupported_free_well_tagged _ node Hfree) (or_introl Hfree)
                root h a sk (length h) eq_refl) as Hrun.
  cbn zeta in Hrun. rewrite unsupported_free_diag in Hrun by exact Hfree.
  unfold log_entries in Hrun. cbn [map] in Hrun. rewrite app_nil_r in Hrun.
  eexists _, _, _. split; [exact Hrun|].
  pose proof (reify_build (mrb_int_bits env) node (height node) h []
                (length h) eq_refl (le_n _)) as Hread.
  cbn zeta in Hread. rewrite app_nil_r in Hread. rewrite Hread.
  f_equal. now apply image_mirror_fit.
Qed.

Lemma conversion_mirrors_node_witness :
  exists v ext a',
    mpv_to_mrb_root sample_env_32 mrb_addr sample_node true
      (live [] [] sample_consts ∅ None [] (Some sample_ctx) [] [])
    = Ok v (live ([] ++ ext) a' sample_consts ∅ None [] (Some sample_ctx)
              [] []) /\
    reify (height sample_node) ([] ++ ext) v = Some (mirror sample_node).
Proof.
  apply (conversion_mirrors_node sample_env_32 sample_node true [] []
           sample_consts ∅ None [] (Some sample_ctx) [] []);
    [reflexivity | reflexivity | right; reflexivity].
Defined.

(** C8, as the specification has it, fails on an interpreter whose integers
    hold 32 bits: the integer 2^31 of a node comes out as -2^31. *)
Lemma mirrors_as_specified_fails : ~ mirrors_as_specified sample_env_32.
Proof.
  intros H.
  destruct (H (NodeInt64 (2 ^ 31)) true [] [] sample_consts ∅ None []
              (Some sample_ctx) [] [] eq_refl eq_refl)
    as (v & w' & st & Hrun & Hi & Hread).
  cbn [mpv_to_mrb_root] in Hrun. unfold ret in Hrun.
  injection Hrun as <- <-.
  cbn in Hi. injection Hi as <-.
  vm_compute in Hread. discriminate Hread.
Qed.

(** C2, as the code has it: on an array or a map, a root call restores the
    arena to the mark it saved after allocating the collection, so that of
    the objects of the call the collection alone stays protected; a nested
    call restores nothing, and every object it allocated keeps its slot. *)
Theorem root_call_restores_arena env node root h a cs ms e ar cm sk tr :
  is_collection node = true ->
  well_tagged (formats env) node = true ->
  ctx_ready node cs cm ->
  exists ext sk',
    mpv_to_mrb_root env mrb_addr node root (live h a cs ms e ar cm sk tr)
    = Ok (mrb_obj (length h))
        (live (h ++ ext)
           (a ++ if root then [length h] else seq (length h) (length ext))
           cs ms e ar cm sk' tr) /\
    (1 <= length ext)%nat.
Proof.
  intros Hcol Htag Hready.
  pose proof (mpv_to_mrb_root_run env cs ms e ar cm tr node Htag Hready
                root h a sk (length h) eq_refl) as Hrun.
  cbn zeta in Hrun. unfold roots in Hrun. rewrite Hcol, andb_true_r in Hrun.
  destruct node; try discriminate; cbn [build fst snd] in *;
    (eexists _, _; split; [exact Hrun | cbn; lia]).
Qed.

Lemma root_call_restores_arena_witness :
  exists ext sk',
    mpv_to_mrb_root sample_env mrb_addr sample_node false
      (live [] [] sample_consts ∅ None [] (Some sample_ctx) [] [])
    = Ok (mrb_obj (length (@nil RObject)))
        (live ([] ++ ext)
           ([] ++ if false then [length (@nil RObject)]
                  else seq (length (@nil RObject)) (length ext))
           sample_consts ∅ None [] (Some sample_ctx) sk' []) /\
    (1 <= length ext)%nat.
Proof.
  apply (root_call_restores_arena sample_env sample_node false [] []
           sample_consts ∅ None [] (Some sample_ctx) [] []);
    [reflexivity | reflexivity | left; reflexivity].
Defined.

(** C2, as the specification has it, fails on an array of one string: the
    nested call leaves two slots behind and the root call is back at its
    mark. *)
Lemma root_guard_as_specified_fails :
  ~ root_guard_as_specified sample_env (NodeArray [NodeString "a"])
      (live [] [] sample_consts ∅ None [] (Some sample_ctx) [] []).
Proof.
  intros [(st & v & w' & st' & Hst & Hrun & Hst' & Ha) _].
  injection Hst as <-.
  rewrite (mpv_to_mrb_root_run sample_env sample_consts ∅ None []
             (Some sample_ctx) [] (NodeArray [NodeString "a"]) eq_refl
             (or_introl eq_refl) false [] [] [] O eq_refl) in Hrun.
  injection Hrun as <- <-. injection Hst' as <-. discriminate Ha.
Qed.

(** C10, as the code has it: [_log] hands the message to [MP_ERR] as a
    [char *], so the sink receives, at error severity, the bytes of the
    message before its first NUL, which is the whole message when it holds
    no NUL; the call returns nil, checks nothing else, and for the empty
    message still writes the empty text. *)
Theorem log_writes_c_string self h a cs ms e c sk tr p bytes :
  cs !! "mpctx" = Some (mrb_cptr_v cptr_ctx) ->
  h !! p = Some (RString bytes) ->
  _log mrb_addr self (live h a cs ms e [mrb_obj p] (Some c) sk tr)
  = Ok mrb_nil_value
      (live h a cs ms e [mrb_obj p] (Some c)
         (sk ++ [(ctx_log c, MSGL_ERR, c_str bytes)]) tr) /\
  (nul_free bytes = true -> c_str bytes = bytes) /\
  (bytes = EmptyString -> c_str bytes = EmptyString).
Proof.
  intros Hcs Hp. repeat split.
  - now apply log_run with (p := p).
  - apply c_str_nul_free.
  - now intros ->.
Qed.

Lemma log_writes_c_string_witness :
  _log mrb_addr mrb_nil
    (live [RString nul_message] [] sample_consts ∅ None [mrb_obj 0]
       (Some sample_ctx) [] [])
  = Ok mrb_nil_value
      (live [RString nul_message] [] sample_consts ∅ None [mrb_obj 0]
         (Some sample_ctx)
         ([] ++ [(ctx_log sample_ctx, MSGL_ERR, c_str nul_message)]) []) /\
  (nul_free nul_message = true -> c_str nul_message = nul_message) /\
  (nul_message = EmptyString -> c_str nul_message = EmptyString).
Proof.
  apply (log_writes_c_string mrb_nil [RString nul_message] [] sample_consts ∅
           None sample_ctx [] [] O nul_message); reflexivity.
Defined.

(** C10, as the specification has it, fails for a message with a NUL byte in
    the middle: the sink receives the part before the NUL. *)
Lemma log_verbatim_fails : ~ log_verbatim nul_message.
Proof.
  intros H.
  specialize (H mrb_nil [RString nul_message] [] sample_consts ∅ None
                sample_ctx [] [] O eq_refl eq_refl).
  rewrite (log_run sample_consts ∅ None [mrb_obj 0] sample_ctx [] eq_refl
             mrb_nil [RString nul_message] [] [] O nul_message
             eq_refl eq_refl) in H.
  apply (f_equal (fun r => match r with
                           | Ok _ w => snd <$> sink w
                           | _ => []
                           end)) in H.
  cbn in H. discriminate H.
Qed.

Lemma contains_middle (pre t post : string) : contains (pre +:+ t +:+ post) t.
Proof. now exists pre, post. Qed.

(** C4: when the host fails to look a property up, [_get_property] logs one
    line, which holds the name and the host's description of the error,
    returns nil and raises nothing, and leaves the pending exception as it
    was; a load whose script makes this call still returns 0. *)
Theorem failed_lookup_is_recovered env client bytes :
  let name := c_str bytes in
  let err := fst (mpv_get_property client name) in
  let text := get_property_failed env name err in
  err < 0 ->
  (forall self h a cs ms e c sk tr p,
      ctx_client c = client ->
      cs !! "mpctx" = Some (mrb_cptr_v cptr_ctx) ->
      h !! p = Some (RString bytes) ->
      _get_property env mrb_addr self
        (live h a cs ms e [mrb_obj p] (Some c) sk tr)
      = Ok mrb_nil_value
          (live h a cs ms e [mrb_obj p] (Some c)
             (sk ++ [(ctx_log c, MSGL_ERR, text)]) tr)) /\
  contains text name /\
  contains text (mpv_error_string env err) /\
  (forall fname k rescue w,
      mrb_open_succeeds env = true ->
      host_ok (formats env) client ->
      files env (mp_get_user_path (global (mp_client_get_core client)) fname)
      = Some (script_send "M" "get_property" [arg_str bytes] k rescue) ->
      exists w', load_mruby env client fname w = Ok 0 w').
Proof.
  intros name err text Herr. repeat split.
  - intros self h a cs ms e c sk tr p <- Hcs Hp.
    now apply get_property_failed_run with (p := p).
  - unfold text, get_property_failed.
    rewrite <- (append_assoc "get_property(" dquote). apply contains_middle.
  - unfold text, get_property_failed.
    exists ("get_property(" +:+ dquote +:+ name +:+ dquote +:+ ") failed: "),
           ("." +:+ nl).
    now rewrite !append_assoc.
  - intros fname k rescue w Hopen Hhost Hfile.
    destruct (load_mruby_total env client fname _ w Hopen Hfile Hhost)
      as [sk' Hrun].
    eexists. exact Hrun.
Qed.

Lemma failed_lookup_is_recovered_witness :
  let name := c_str "nonexistent.property" in
  let err := fst (mpv_get_property sample_client name) in
  let text := get_property_failed sample_env name err in
  (forall self h a cs ms e c sk tr p,
      ctx_client c = sample_client ->
      cs !! "mpctx" = Some (mrb_cptr_v cptr_ctx) ->
      h !! p = Some (RString "nonexistent.property") ->
      _get_property sample_env mrb_addr self
        (live h a cs ms e [mrb_obj p] (Some c) sk tr)
      = Ok mrb_nil_value
          (live h a cs ms e [mrb_obj p] (Some c)
             (sk ++ [(ctx_log c, MSGL_ERR, text)]) tr)) /\
  contains text name /\
  contains text (mpv_error_string sample_env err) /\
  (forall fname k rescue w,
      mrb_open_succeeds sample_env = true ->
      host_ok (formats sample_env) sample_client ->
      files sample_env
        (mp_get_user_path (global (mp_client_get_core sample_client)) fname)
      = Some (script_send "M" "get_property"
                [arg_str "nonexistent.property"] k rescue) ->
      exists w', load_mruby sample_env sample_client fname w = Ok 0 w').
Proof.
  apply (failed_lookup_is_recovered sample_env sample_client
           "nonexistent.property").
  reflexivity.
Defined.

Lemma sample_fault_load :
  exists w', load_mruby sample_env sample_client "fault.mrb" world_init
             = Ok 0 w'.
Proof.
  destruct (load_mruby_total sample_env sample_client "fault.mrb"
              (script_raise sample_fault) world_init eq_refl eq_refl
              sample_client_ok) as [sk' Hrun].
  eexists. exact Hrun.
Qed.

(** C1, as the code has it: a load that gets an interpreter and opens the
    script file returns 0, whether the script ran to its end or raised an
    uncaught exception; the exception is reported to the sink only. *)
Theorem load_returns_zero_after_run env client fname prog w :
  mrb_open_succeeds env = true ->
  files env (mp_get_user_path (global (mp_client_get_core client)) fname)
  = Some prog ->
  host_ok (formats env) client ->
  exists w', load_mruby env client fname w = Ok 0 w'.
Proof.
  intros Hopen Hfile Hhost.
  destruct (load_mruby_total env client fname prog w Hopen Hfile Hhost)
    as [sk' Hrun].
  eexists. exact Hrun.
Qed.

Lemma load_returns_zero_after_run_witness :
  exists w', load_mruby sample_env sample_client "fault.mrb" world_init
             = Ok 0 w'.
Proof.
  apply (load_returns_zero_after_run sample_env sample_client "fault.mrb"
           (script_raise sample_fault) world_init);
    [reflexivity | reflexivity | exact sample_client_ok].
Defined.

(** C1, as the specification has it, fails for a script that raises an
    uncaught exception: the load returns 0, which is not negative. *)
Lemma load_code_as_specified_fails :
  ~ load_code_as_specified sample_env sample_client "fault.mrb" world_init.
Proof.
  intros (r & w' & Hrun & Hcode).
  apply load_mruby_returns in Hrun as (_ & -> & _).
  vm_compute in Hcode. discriminate Hcode.
Qed.

(** C3: [load_mruby] goes through the pointer [mrb_open] returned before it
    checks it, so with a null pointer the behaviour is undefined before the
    check; hence whenever the load returns, the pointer was not null, the
    failure branch of the check was not taken, and the code is 0, never
    -1. *)
Theorem null_check_comes_too_late env client fname w :
  (mrb_open_succeeds env = false ->
   load_mruby env client fname w = Undefined) /\
  (forall r w', load_mruby env client fname w = Ok r w' ->
                mrb_open_succeeds env = true /\ r = 0 /\ r <> -1).
Proof.
  split.
  - apply load_mruby_null.
  - intros r w' Hrun.
    apply load_mruby_returns in Hrun as (Hopen & -> & _).
    repeat split; [exact Hopen | discriminate].
Qed.

Lemma null_check_comes_too_late_witness :
  load_mruby sample_env_no_memory sample_client "ok.mrb" world_init
  = Undefined /\
  (mrb_open_succeeds sample_env = true /\ 0 = 0 /\ 0 <> -1).
Proof.
  split.
  - apply (proj1 (null_check_comes_too_late sample_env_no_memory
                    sample_client "ok.mrb" world_init)).
    reflexivity.
  - eapply (proj2 (null_check_comes_too_late sample_env sample_client
                     "ok.mrb" world_init) 0).
    vm_compute. reflexivity.
Defined.

(** C9: whenever a load returns, after a script that ended or one that
    raised, its resource events are: context allocated, interpreter opened,
    interpreter closed, context freed.  The interpreter is closed strictly
    before the context is freed, nothing happens after that, and both are
    gone at the return. *)
Theorem interpreter_closed_before_context_freed env client fname w r w' :
  load_mruby env client fname w = Ok r w' ->
  trace w' = trace w ++ [ev_ctx_alloc; ev_mrb_open; ev_mrb_close; ev_ctx_free]
  /\ interp w' = None /\ ctx_mem w' = None.
Proof.
  intros Hrun.
  apply load_mruby_returns in Hrun as (_ & _ & Hi & Hc & Ht).
  now repeat split.
Qed.

Lemma interpreter_closed_before_context_freed_witness :
  exists w',
    load_mruby sample_env sample_client "fault.mrb" world_init = Ok 0 w' /\
    trace w' = trace world_init ++
               [ev_ctx_alloc; ev_mrb_open; ev_mrb_close; ev_ctx_free] /\
    interp w' = None /\ ctx_mem w' = None.
Proof.
  destruct sample_fault_load as [w' Hrun].
  exists w'. split; [exact Hrun|].
  exact (interpreter_closed_before_context_freed sample_env sample_client
           "fault.mrb" world_init 0 w' Hrun).
Defined.

(** * Further properties of the code *)

(** ** Further properties of the conversion *)

Lemma build_length bits node :
  forall p, length (fst (build bits p node)) = allocs node.
Proof.
  induction node as [s|f|i|d|values IH|entries IH|f]
    using mpv_node_rect_nested; intros p; cbn [build allocs fst length];
    try reflexivity.
  - f_equal. generalize (S p).
    induction IH as [|x l Hx _ IHl]; intros q; [reflexivity|].
    cbn [build_list sum_list fst]. now rewrite length_app, Hx, IHl.
  - f_equal. generalize (S p), (@nil (hkey * mrb_value)).
    induction IH as [|x l Hx _ IHl]; intros q tbl; [reflexivity|].
    cbn [build_entries sum_entries fst length].
    now rewrite length_app, Hx, IHl.
Qed.

Lemma diag_length node : length (diag node) = count_other node.
Proof.
  induction node as [s|f|i|d|values IH|entries IH|f]
    using mpv_node_rect_nested; cbn [diag count_other length];
    try reflexivity.
  - induction IH as [|x l Hx _ IHl]; [reflexivity|].
    cbn [diag_list sum_list]. now rewrite length_app, Hx, IHl.
  - induction IH as [|x l Hx _ IHl]; [reflexivity|].
    cbn [diag_entries sum_entries]. now rewrite length_app, Hx, IHl.
Qed.

(** X1: a conversion only adds to the heap.  It allocates one object for
    each string, array, map and map key of the node, after the objects that
    were there, which stay as they were; the value of a string, an array or a
    map is the first new object; a root call on an array or a map leaves one
    arena slot behind and every other call one for each new object. *)
Theorem conversion_only_appends env node root h a cs ms e ar cm sk tr :
  well_tagged (formats env) node = true ->
  ctx_ready node cs cm ->
  exists v ext sk',
    mpv_to_mrb_root env mrb_addr node root (live h a cs ms e ar cm sk tr)
    = Ok v (live (h ++ ext)
              (a ++ if root && is_collection node then [length h]
                    else seq (length h) (allocs node))
              cs ms e ar cm sk' tr) /\
    length ext = allocs node /\
    (forall i o, h !! i = Some o -> (h ++ ext) !! i = Some o) /\
    (allocs node = O \/ v = mrb_obj (length h)).
Proof.
  intros Htag Hready.
  pose proof (mpv_to_mrb_root_run env cs ms e ar cm tr node Htag Hready
                root h a sk (length h) eq_refl) as Hrun.
  cbn zeta in Hrun. unfold roots in Hrun. rewrite build_length in Hrun.
  eexists _, _, _. split; [exact Hrun|]. split; [apply build_length|].
  split; [intros i o; apply lookup_app_l_Some|].
  destruct node; cbn [allocs build snd]; auto.
Qed.

Lemma conversion_only_appends_witness :
  exists v ext sk',
    mpv_to_mrb_root sample_env mrb_addr sample_node false
      (live [RString "old"] [] sample_consts ∅ None [] (Some sample_ctx)
         [] [])
    = Ok v (live ([RString "old"] ++ ext)
              ([] ++ if false && is_collection sample_node
                     then [length [RString "old"]]
                     else seq (length [RString "old"]) (allocs sample_node))
              sample_consts ∅ None [] (Some sample_ctx) sk' []) /\
    length ext = allocs sample_node /\
    (forall i o, [RString "old"] !! i = Some o ->
                 ([RString "old"] ++ ext) !! i = Some o) /\
    (allocs sample_node = O \/ v = mrb_obj (length [RString "old"])).
Proof.
  apply (conversion_only_appends sample_env sample_node false
           [RString "old"] [] sample_consts ∅ None [] (Some sample_ctx)
           [] []); [reflexivity | left; reflexivity].
Defined.

(** X2: a node of another format inside an array or a map does not stop the
    conversion.  The value is built all the same, with nil in the place of
    each such node, and the sink receives one line for each of them, in the
    order of the source. *)
Theorem unsupported_inside_gives_nil env node root h a cs ms e ar c sk tr :
  well_tagged (formats env) node = true ->
  cs !! "mpctx" = Some (mrb_cptr_v cptr_ctx) ->
  exists v ext a',
    mpv_to_mrb_root env mrb_addr node root
      (live h a cs ms e ar (Some c) sk tr)
    = Ok v (live (h ++ ext) a' cs ms e ar (Some c)
              (sk ++ map (fun t => (ctx_log c, MSGL_ERR, t)) (diag node))
              tr) /\
    length (diag node) = count_other node /\
    reify (height node) (h ++ ext) v
    = Some (shape c_str (wrap (mrb_int_bits env)) node).
Proof.
  intros Htag Hcs.
  assert (Hready : ctx_ready node cs (Some c)).
  { right. split; [exact Hcs | now eexists]. }
  pose proof (mpv_to_mrb_root_run env cs ms e ar (Some c) tr node Htag
                Hready root h a sk (length h) eq_refl) as Hrun.
  cbn zeta in Hrun.
  eexists _, _, _. split; [exact Hrun|]. split; [apply diag_length|].
  pose proof (reify_build (mrb_int_bits env) node (height node) h []
                (length h) eq_refl (le_n _)) as Hread.
  cbn zeta in Hread. now rewrite app_nil_r in Hread.
Qed.

Lemma unsupported_inside_gives_nil_witness :
  exists v ext a',
    mpv_to_mrb_root sample_env mrb_addr
      (NodeArray [NodeOther 9; NodeFlag 1; NodeMap [("k", NodeOther 0)]]) true
      (live [] [] sample_consts ∅ None [] (Some sample_ctx) [] [])
    = Ok v (live ([] ++ ext) a' sample_consts ∅ None [] (Some sample_ctx)
              ([] ++ map (fun t => (ctx_log sample_ctx, MSGL_ERR, t))
                       (diag (NodeArray [NodeOther 9; NodeFlag 1;
                                         NodeMap [("k", NodeOther 0)]])))
              []) /\
    length (diag (NodeArray [NodeOther 9; NodeFlag 1;
                             NodeMap [("k", NodeOther 0)]]))
    = count_other (NodeArray [NodeOther 9; NodeFlag 1;
                              NodeMap [("k", NodeOther 0)]]) /\
    reify (height (NodeArray [NodeOther 9; NodeFlag 1;
                              NodeMap [("k", NodeOther 0)]]))
      ([] ++ ext) v
    = Some (shape c_str (wrap (mrb_int_bits sample_env))
              (NodeArray [NodeOther 9; NodeFlag 1;
                          NodeMap [("k", NodeOther 0)]])).
Proof.
  apply (unsupported_inside_gives_nil sample_env
           (NodeArray [NodeOther 9; NodeFlag 1; NodeMap [("k", NodeOther 0)]])
           true [] [] sample_consts ∅ None [] sample_ctx [] []);
    reflexivity.
Defined.

(** ** The root flag, integers and keys *)

Lemma wrap_range bits i :
  0 < bits -> in_range bits (wrap bits i) = true.
Proof.
  intros Hb. unfold in_range, wrap.
  assert (Hp : 2 ^ bits = 2 * 2 ^ (bits - 1)).
  { replace bits with (Z.succ (bits - 1)) at 1 by lia.
    apply Z.pow_succ_r. lia. }
  assert (H0 : 0 < 2 ^ (bits - 1)) by (apply Z.pow_pos_nonneg; lia).
  pose proof (Z.mod_pos_bound (i + 2 ^ (bits - 1)) (2 ^ bits)
                ltac:(lia)) as Hm.
  apply andb_true_intro. split; [apply Z.leb_le | apply Z.ltb_lt]; lia.
Qed.

(** X3: the root flag of a conversion decides what stays in the arena and
    nothing else: the root call and the nested call on the same node return
    the same value, leave the same heap and log the same lines, and the slots
    the root call leaves are among those the nested call leaves. *)
Theorem root_flag_only_affects_arena env node h a cs ms e ar cm sk tr :
  well_tagged (formats env) node = true ->
  ctx_ready node cs cm ->
  exists v h' sk' a1 a2,
    mpv_to_mrb_root env mrb_addr node true (live h a cs ms e ar cm sk tr)
    = Ok v (live h' a1 cs ms e ar cm sk' tr) /\
    mpv_to_mrb_root env mrb_addr node false (live h a cs ms e ar cm sk tr)
    = Ok v (live h' a2 cs ms e ar cm sk' tr) /\
    a1 `prefix_of` a2 /\
    (is_collection node = false -> a1 = a2).
Proof.
  intros Htag Hready.
  pose proof (mpv_to_mrb_root_run env cs ms e ar cm tr node Htag Hready)
    as Hrun.
  pose proof (Hrun true h a sk (length h) eq_refl) as Ht.
  pose proof (Hrun false h a sk (length h) eq_refl) as Hf.
  cbn zeta in Ht, Hf. unfold roots in Ht, Hf. cbn [andb] in Ht, Hf.
  rewrite build_length in Ht, Hf.
  eexists _, _, _, _, _. split; [exact Ht|]. split; [exact Hf|].
  split.
  - apply prefix_app. destruct node; cbn [is_collection]; try reflexivity.
    + cbn [allocs seq]. now eexists.
    + cbn [allocs seq]. now eexists.
  - now intros ->.
Qed.

Lemma root_flag_only_affects_arena_witness :
  exists v h' sk' a1 a2,
    mpv_to_mrb_root sample_env mrb_addr sample_node true
      (live [] [] sample_consts ∅ None [] (Some sample_ctx) [] [])
    = Ok v (live h' a1 sample_consts ∅ None [] (Some sample_ctx) sk' []) /\
    mpv_to_mrb_root sample_env mrb_addr sample_node false
      (live [] [] sample_consts ∅ None [] (Some sample_ctx) [] [])
    = Ok v (live h' a2 sample_consts ∅ None [] (Some sample_ctx) sk' []) /\
    a1 `prefix_of` a2 /\
    (is_collection sample_node = false -> a1 = a2).
Proof.
  apply (root_flag_only_affects_arena sample_env sample_node [] []
           sample_consts ∅ None [] (Some sample_ctx) [] []);
    [reflexivity | left; reflexivity].
Defined.

(** X4: an integer node is converted to the interpreter's integer type and
    allocates nothing.  The result always lies in the range of that type; it
    is the integer of the node exactly when that one lies in the range, and
    differs from it by a multiple of two to the width otherwise. *)
Theorem int64_kept_when_in_range env i root w :
  0 < mrb_int_bits env ->
  exists j,
    mpv_to_mrb_root env mrb_addr (NodeInt64 i) root w = Ok (mrb_fixnum j) w /\
    in_range (mrb_int_bits env) j = true /\
    (j = i <-> in_range (mrb_int_bits env) i = true) /\
    (j - i) mod 2 ^ mrb_int_bits env = 0.
Proof.
  intros Hb. exists (wrap (mrb_int_bits env) i).
  split; [reflexivity|]. split; [now apply wrap_range|]. split.
  - split.
    + intros Heq. rewrite <- Heq at 1. now apply wrap_range.
    + now apply wrap_in_range.
  - unfold wrap.
    assert (H0 : 0 < 2 ^ mrb_int_bits env) by (apply Z.pow_pos_nonneg; lia).
    rewrite (Z.mod_eq (i + _) (2 ^ mrb_int_bits env)) by lia.
    replace (i + 2 ^ (mrb_int_bits env - 1)
             - 2 ^ mrb_int_bits env
               * ((i + 2 ^ (mrb_int_bits env - 1)) / 2 ^ mrb_int_bits env)
             - 2 ^ (mrb_int_bits env - 1) - i)
      with (- ((i + 2 ^ (mrb_int_bits env - 1)) / 2 ^ mrb_int_bits env)
            * 2 ^ mrb_int_bits env) by lia.
    apply Z.mod_mul. lia.
Qed.

Lemma int64_kept_when_in_range_witness :
  exists j,
    mpv_to_mrb_root
      {| formats := sample_formats; mrb_int_bits := 32;
         mrb_open_succeeds := true; mp_get_property_list := [];
         mpv_error_string := (fun _ => "error");
         files := (fun _ => None) |}
      mrb_addr (NodeInt64 (2 ^ 31)) true
      (live [] [] sample_consts ∅ None [] (Some sample_ctx) [] [])
    = Ok (mrb_fixnum j)
        (live [] [] sample_consts ∅ None [] (Some sample_ctx) [] []) /\
    in_range 32 j = true /\
    (j = 2 ^ 31 <-> in_range 32 (2 ^ 31) = true) /\
    (j - 2 ^ 31) mod 2 ^ 32 = 0.
Proof.
  apply (int64_kept_when_in_range
           {| formats := sample_formats; mrb_int_bits := 32;
              mrb_open_succeeds := true; mp_get_property_list := [];
              mpv_error_string := (fun _ => "error");
              files := (fun _ => None) |}
           (2 ^ 31) true
           (live [] [] sample_consts ∅ None [] (Some sample_ctx) [] [])).
  cbn. lia.
Defined.

(** ** Maps with a key more than once *)

Lemma tbl_set_fst {K V} `{EqDecision K} (tbl : list (K * V)) k v :
  (tbl_set tbl k v).*1
  = if decide (k ∈ tbl.*1) then tbl.*1 else tbl.*1 ++ [k].
Proof.
  induction tbl as [|[k' v'] rest IH].
  - cbn [tbl_set fmap list_fmap fst].
    destruct (decide (k ∈ [])) as [Hin|_]; [|reflexivity].
    now apply elem_of_nil in Hin.
  - cbn [tbl_set]. destruct (decide (k' = k)) as [Heq|Hne].
    + subst k'. cbn [fmap list_fmap fst].
      destruct (decide (k ∈ k :: rest.*1)) as [_|Hno]; [reflexivity|].
      destruct Hno. apply elem_of_cons. now left.
    + rewrite !fmap_cons. cbn [fst]. rewrite IH.
      destruct (decide (k ∈ rest.*1)) as [Hin|Hno];
        destruct (decide (k ∈ k' :: rest.*1)) as [Hin'|Hno'];
        try reflexivity.
      * destruct Hno'. apply elem_of_cons. now right.
      * apply elem_of_cons in Hin' as [->|Hin']; [now destruct Hne|].
        now destruct Hno.
Qed.

Lemma tbl_set_NoDup {K V} `{EqDecision K} (tbl : list (K * V)) k v :
  NoDup tbl.*1 -> NoDup (tbl_set tbl k v).*1.
Proof.
  intros Hnd. rewrite tbl_set_fst.
  destruct (decide (k ∈ tbl.*1)) as [_|Hno]; [exact Hnd|].
  apply NoDup_app. split; [exact Hnd|]. split.
  - intros x Hx Hk. apply list_elem_of_singleton in Hk as ->. now apply Hno.
  - apply NoDup_singleton.
Qed.

Lemma tbl_set_new {K V} `{EqDecision K} (tbl : list (K * V)) k v :
  (k, v) ∈ tbl_set tbl k v.
Proof.
  induction tbl as [|[k' v'] rest IH]; cbn [tbl_set].
  - apply elem_of_cons. now left.
  - destruct (decide (k' = k)) as [->|Hne]; apply elem_of_cons; auto.
Qed.

Lemma tbl_set_other {K V} `{EqDecision K} (tbl : list (K * V)) k v k' v' :
  k' <> k -> (k', v') ∈ tbl -> (k', v') ∈ tbl_set tbl k v.
Proof.
  intros Hne. induction tbl as [|[k0 v0] rest IH]; cbn [tbl_set]; intros Hin.
  - now apply elem_of_nil in Hin.
  - apply elem_of_cons in Hin as [Heq|Hin].
    + injection Heq as <- <-.
      destruct (decide (k' = k)) as [Hk|_]; [now destruct Hne|].
      apply elem_of_cons. now left.
    + destruct (decide (k0 = k)) as [->|_]; apply elem_of_cons; right; auto.
Qed.

Section ShapeEntries.
Variables (fs : string -> string) (sh : mpv_node -> tvalue).

Lemma shape_entries_keys l :
  forall tbl k,
    k ∈ (shape_entries fs sh l tbl).*1
    <-> k ∈ tbl.*1 \/ k ∈ (fun e => fs (fst e)) <$> l.
Proof.
  induction l as [|x l IH]; intros tbl k.
  - cbn [shape_entries]. rewrite fmap_nil. split; [now left|].
    intros [H|H]; [exact H|]. now apply elem_of_nil in H.
  - cbn [shape_entries]. rewrite fmap_cons.
    rewrite IH, tbl_set_fst, elem_of_cons.
    destruct (decide (fs (fst x) ∈ tbl.*1)) as [Hin|Hno].
    + split; [intros [H|H]; auto|].
      intros [H|[->|H]]; auto.
    + rewrite elem_of_app, list_elem_of_singleton. tauto.
Qed.

Lemma shape_entries_NoDup l :
  forall tbl, NoDup tbl.*1 -> NoDup (shape_entries fs sh l tbl).*1.
Proof.
  induction l as [|x l IH]; intros tbl Hnd; cbn [shape_entries];
    [exact Hnd|].
  apply IH. now apply tbl_set_NoDup.
Qed.

Lemma shape_entries_keeps l :
  forall tbl k v,
    (k, v) ∈ tbl -> k ∉ (fun e => fs (fst e)) <$> l ->
    (k, v) ∈ shape_entries fs sh l tbl.
Proof.
  induction l as [|x l IH]; intros tbl k v Hin Hno; cbn [shape_entries];
    [exact Hin|].
  rewrite fmap_cons in Hno.
  apply not_elem_of_cons in Hno as [Hne Hno].
  apply IH; [|exact Hno]. now apply tbl_set_other.
Qed.

Lemma shape_entries_last pre k x post tbl :
  fs k ∉ (fun e => fs (fst e)) <$> post ->
  (fs k, sh x) ∈ shape_entries fs sh (pre ++ (k, x) :: post) tbl.
Proof.
  revert tbl. induction pre as [|y pre IH]; intros tbl Hno.
  - cbn [app shape_entries fst snd].
    apply shape_entries_keeps; [apply tbl_set_new | exact Hno].
  - cbn [app shape_entries]. now apply IH.
Qed.
End ShapeEntries.

(** X5: a map node becomes a hash with one entry for each key that differs
    as a C string, so that pairs with the same key, or with keys that agree
    up to a NUL byte, come to one entry; that entry holds the converted value
    of the last such pair. *)
Theorem map_keeps_last_value_of_key
    env entries root h a cs ms e ar cm sk tr :
  well_tagged (formats env) (NodeMap entries) = true ->
  ctx_ready (NodeMap entries) cs cm ->
  exists ext a' sk' tbl,
    mpv_to_mrb_root env mrb_addr (NodeMap entries) root
      (live h a cs ms e ar cm sk tr)
    = Ok (mrb_obj (length h)) (live (h ++ ext) a' cs ms e ar cm sk' tr) /\
    reify (height (NodeMap entries)) (h ++ ext) (mrb_obj (length h))
    = Some (t_hash tbl) /\
    NoDup tbl.*1 /\
    (forall k, k ∈ tbl.*1 <-> k ∈ (fun e => c_str (fst e)) <$> entries) /\
    (forall pre k x post,
        entries = pre ++ (k, x) :: post ->
        c_str k ∉ (fun e => c_str (fst e)) <$> post ->
        (c_str k, shape c_str (wrap (mrb_int_bits env)) x) ∈ tbl).
Proof.
  intros Htag Hready.
  pose proof (mpv_to_mrb_root_run env cs ms e ar cm tr (NodeMap entries)
                Htag Hready root h a sk (length h) eq_refl) as Hrun.
  cbn zeta in Hrun.
  pose proof (reify_build (mrb_int_bits env) (NodeMap entries)
                (height (NodeMap entries)) h [] (length h) eq_refl
                (le_n _)) as Hread.
  cbn zeta in Hread. rewrite app_nil_r in Hread.
  change (snd (build (mrb_int_bits env) (length h) (NodeMap entries)))
    with (mrb_obj (length h)) in Hrun, Hread.
  eexists _, _, _, _. split; [exact Hrun|]. split; [exact Hread|].
  split; [|split].
  - apply shape_entries_NoDup. apply NoDup_nil_2.
  - intros k. rewrite shape_entries_keys. split; [|auto].
    intros [H|H]; [now apply elem_of_nil in H | exact H].
  - intros pre k x post -> Hno. now apply shape_entries_last.
Qed.

Lemma map_keeps_last_value_of_key_witness :
  exists ext a' sk' tbl,
    mpv_to_mrb_root sample_env mrb_addr
      (NodeMap [("k", NodeInt64 1); ("j", NodeFlag 0);
                ("k" +:+ String Ascii.zero "x", NodeInt64 2)])
      true (live [] [] sample_consts ∅ None [] (Some sample_ctx) [] [])
    = Ok (mrb_obj (length (@nil RObject)))
        (live ([] ++ ext) a' sample_consts ∅ None [] (Some sample_ctx) sk'
           []) /\
    reify (height (NodeMap [("k", NodeInt64 1); ("j", NodeFlag 0);
                            ("k" +:+ String Ascii.zero "x", NodeInt64 2)]))
      ([] ++ ext) (mrb_obj (length (@nil RObject)))
    = Some (t_hash tbl) /\
    NoDup tbl.*1 /\
    (forall k, k ∈ tbl.*1
               <-> k ∈ (fun e => c_str (fst e))
                         <$> [("k", NodeInt64 1); ("j", NodeFlag 0);
                              ("k" +:+ String Ascii.zero "x", NodeInt64 2)]) /\
    (forall pre k x post,
        [("k", NodeInt64 1); ("j", NodeFlag 0);
         ("k" +:+ String Ascii.zero "x", NodeInt64 2)]
        = pre ++ (k, x) :: post ->
        c_str k ∉ (fun e => c_str (fst e)) <$> post ->
        (c_str k, shape c_str (wrap (mrb_int_bits sample_env)) x) ∈ tbl).
Proof.
  apply (map_keeps_last_value_of_key sample_env
           [("k", NodeInt64 1); ("j", NodeFlag 0);
            ("k" +:+ String Ascii.zero "x", NodeInt64 2)]
           true [] [] sample_consts ∅ None [] (Some sample_ctx) [] []);
    [reflexivity | left; reflexivity].
Defined.

(** ** Further properties of the module functions *)

Lemma shape_strings fs fi (l : list string) :
  shape fs fi (NodeArray (NodeString <$> l)) = t_ary (t_str <$> (fs <$> l)).
Proof.
  cbn [shape]. f_equal. induction l as [|x l IH]; [reflexivity|].
  cbn [fmap list_fmap shape_list shape] in *. now rewrite IH.
Qed.

Lemma allocs_strings (l : list string) :
  allocs (NodeArray (NodeString <$> l)) = S (length l).
Proof.
  cbn [allocs]. f_equal. induction l as [|x l IH]; [reflexivity|].
  cbn [fmap list_fmap sum_list allocs length] in *. now rewrite IH.
Qed.

Lemma height_strings (l : list string) :
  (height (NodeArray (NodeString <$> l)) <= 2)%nat.
Proof.
  cbn [height]. apply le_n_S. induction l as [|x l IH]; [cbn; lia|].
  cbn [fmap list_fmap height_list height] in *. lia.
Qed.

(** X6: [_property_list] returns a new array that holds the names of the
    host's properties as strings, in the order of the host's list and with
    its repetitions.  It allocates the array and one string for each name,
    leaves one arena slot, the array's, and logs nothing. *)
Theorem property_list_in_order env self h a cs ms e ar cm sk tr :
  exists ext,
    _property_list env mrb_addr self (live h a cs ms e ar cm sk tr)
    = Ok (mrb_obj (length h))
        (live (h ++ ext) (a ++ [length h]) cs ms e ar cm sk tr) /\
    length ext = S (length (mp_get_property_list env)) /\
    reify 2 (h ++ ext) (mrb_obj (length h))
    = Some (t_ary (t_str <$> (c_str <$> mp_get_property_list env))).
Proof.
  set (node := NodeArray (NodeString <$> mp_get_property_list env)).
  pose proof (mpv_to_mrb_root_run env cs ms e ar cm tr node
                (well_tagged_strings env _)
                (or_introl (unsupported_free_strings _))
                true h a sk (length h) eq_refl) as Hrun.
  cbn zeta in Hrun.
  rewrite (unsupported_free_diag node (unsupported_free_strings _)) in Hrun.
  unfold log_entries, roots in Hrun. cbn [map andb is_collection node] in Hrun.
  rewrite app_nil_r in Hrun.
  exists (fst (build (mrb_int_bits env) (length h) node)).
  rewrite property_list_as_array. fold node. split; [exact Hrun|].
  split.
  - rewrite build_length. apply allocs_strings.
  - pose proof (reify_build (mrb_int_bits env) node 2%nat h []
                  (length h) eq_refl (height_strings _)) as Hread.
    cbn zeta in Hread. rewrite app_nil_r in Hread.
    unfold node in Hread at 3. rewrite shape_strings in Hread.
    exact Hread.
Qed.

Section MoreCalls.
Variable env : environment.
Variables (cs : gmap string mrb_value)
          (ms : gmap (string * string) mrb_func)
          (e : option exception) (c : script_ctx) (tr : list event).
Hypothesis Hcs : cs !! "mpctx" = Some (mrb_cptr_v cptr_ctx).

Local Abbreviation world_at ar h a sk :=
  (live h a cs ms e ar (Some c) sk tr).

(** [get_node] when the host has the property: no line, and [true]. *)
Lemma get_node_found ar h a sk p bytes node :
  ar = [mrb_obj p] -> h !! p = Some (RString bytes) ->
  0 <= fst (mpv_get_property (ctx_client c) (c_str bytes)) ->
  snd (mpv_get_property (ctx_client c) (c_str bytes)) = Some node ->
  get_node env mrb_addr (world_at ar h a sk)
  = Ok (true, Some node) (world_at ar h a sk).
Proof.
  intros Har Hp Herr Hnode. unfold get_node.
  erewrite bind_Ok by (now apply get_ctx_run).
  erewrite bind_Ok
    by (now apply (mrb_get_args_s_run cs ms e ar c tr h a sk p bytes)).
  cbn [fst]. erewrite bind_Ok by reflexivity. cbn zeta.
  assert (Hlt : (fst (mpv_get_property (ctx_client c) (c_str bytes)) <? 0)
                = false) by (apply Z.ltb_ge; lia).
  assert (Hle : (0 <=? fst (mpv_get_property (ctx_client c) (c_str bytes)))
                = true) by (apply Z.leb_le; lia).
  rewrite Hlt. erewrite bind_Ok by reflexivity.
  unfold ret. now rewrite Hle, Hnode.
Qed.

(** [mrb_get_args] raises unless the one argument is a String. *)
Lemma mrb_get_args_s_raises ar h a sk :
  (forall p bytes, ar = [mrb_obj p] -> h !! p <> Some (RString bytes)) ->
  exists ex,
    mrb_get_args_s mrb_addr (world_at ar h a sk)
    = Raised ex (world_at ar h a sk).
Proof.
  intros Hbad. unfold mrb_get_args_s, bind, mrb_get, live.
  cbn [interp mrb_args mrb_heap].
  destruct ar as [|[| | | | |p] [|]]; try (eexists; reflexivity).
  destruct (h !! p) as [[bytes| |]|] eqn:Hp; try (eexists; reflexivity).
  now destruct (Hbad p bytes eq_refl).
Qed.

Lemma error_entries_log (texts : list string) :
  error_entries (ctx_log c) (log_entries (Some c) texts).
Proof.
  unfold error_entries, log_entries.
  induction texts as [|t texts IH]; cbn [map]; now constructor.
Qed.

(** The three ways [get_node] ends, with what a failed lookup logs. *)
Lemma get_node_grows ar h a sk :
  host_ok (formats env) (ctx_client c) ->
  (exists ex, get_node env mrb_addr (world_at ar h a sk)
              = Raised ex (world_at ar h a sk)) \/
  (exists text,
      get_node env mrb_addr (world_at ar h a sk)
      = Ok (false, None)
          (world_at ar h a (sk ++ log_entries (Some c) [text]))) \/
  (exists node, well_tagged (formats env) node = true /\
                get_node env mrb_addr (world_at ar h a sk)
                = Ok (true, Some node) (world_at ar h a sk)).
Proof.
  intros Hhost. unfold get_node.
  erewrite bind_Ok by (now apply get_ctx_run).
  destruct (mrb_get_args_s_total cs ms e ar c tr h a sk)
    as [[r Hr]|[ex Hr]].
  - erewrite bind_Ok by exact Hr.
    erewrite bind_Ok by reflexivity. cbn zeta.
    set (name := fst r).
    destruct (Z.ltb_spec (fst (mpv_get_property (ctx_client c) name)) 0)
      as [Hlt|Hge].
    + right; left.
      erewrite bind_Ok by (now apply MP_ERR_run).
      assert (Hle : (0 <=? fst (mpv_get_property (ctx_client c) name))
                    = false) by (apply Z.leb_gt; lia).
      unfold ret. rewrite Hle. now eexists.
    + right; right.
      destruct (Hhost name Hge) as [node [Hnode Htag]].
      exists node. split; [exact Htag|].
      erewrite bind_Ok by reflexivity.
      assert (Hle : (0 <=? fst (mpv_get_property (ctx_client c) name))
                    = true) by (apply Z.leb_le; lia).
      unfold ret. now rewrite Hle, Hnode.
  - left. exists ex. now erewrite bind_Raised by exact Hr.
Qed.

(** A call of a module function returns, having only added objects, arena
    slots and error entries of the context's log, or raises with the world
    as it was. *)
Lemma call_func_grows f self ar h a sk :
  host_ok (formats env) (ctx_client c) ->
  (exists v ext a' sk',
      call_func env f mrb_addr self (world_at ar h a sk)
      = Ok v (world_at ar (h ++ ext) (a ++ a') (sk ++ sk')) /\
      error_entries (ctx_log c) sk') \/
  (exists ex,
      call_func env f mrb_addr self (world_at ar h a sk)
      = Raised ex (world_at ar h a sk)).
Proof.
  intros Hhost.
  assert (Hready : forall node, ctx_ready node cs (Some c)).
  { intros node. right. split; [exact Hcs | now eexists]. }
  destruct f; cbn [call_func].
  - unfold _log. erewrite bind_Ok by (now apply get_ctx_run).
    destruct (mrb_get_args_s_total cs ms e ar c tr h a sk)
      as [[r Hr]|[ex Hr]].
    + left. erewrite bind_Ok by exact Hr.
      erewrite bind_Ok by (apply MP_ERR_run; now eexists).
      exists mrb_nil, [], [], (log_entries (Some c) [fst r]).
      rewrite !app_nil_r. split; [reflexivity | apply error_entries_log].
    + right. exists ex. now erewrite bind_Raised by exact Hr.
  - left. rewrite property_list_as_array.
    rewrite (mpv_to_mrb_root_run env cs ms e ar (Some c) tr _
               (well_tagged_strings env _) (Hready _)
               true h a sk (length h) eq_refl).
    cbn zeta. eexists _, _, _, _.
    split; [reflexivity | apply error_entries_log].
  - unfold _get_property.
    destruct (get_node_grows ar h a sk Hhost)
      as [[ex Hr]|[[text Hr]|[node [Htag Hr]]]].
    + right. exists ex. now erewrite bind_Raised by exact Hr.
    + left. erewrite bind_Ok by exact Hr. cbn [fst].
      exists mrb_nil, [], [], (log_entries (Some c) [text]).
      rewrite !app_nil_r. split; [reflexivity | apply error_entries_log].
    + left. erewrite bind_Ok by exact Hr. cbn [fst snd]. unfold mpv_to_mrb.
      rewrite (mpv_to_mrb_root_run env cs ms e ar (Some c) tr node Htag
                 (Hready _) true h a sk (length h) eq_refl).
      cbn zeta. eexists _, _, _, _.
      split; [reflexivity | apply error_entries_log].
Qed.
End MoreCalls.

(** X7: when the host has the property, [_get_property] is the root
    conversion of the node the host wrote: the lookup itself logs nothing,
    the value reads back as the tree of the node, and the sink receives only
    the lines of the conversion. *)
Theorem get_property_converts_as_root
    env self h a cs ms e c sk tr p bytes node :
  cs !! "mpctx" = Some (mrb_cptr_v cptr_ctx) ->
  h !! p = Some (RString bytes) ->
  0 <= fst (mpv_get_property (ctx_client c) (c_str bytes)) ->
  snd (mpv_get_property (ctx_client c) (c_str bytes)) = Some node ->
  well_tagged (formats env) node = true ->
  _get_property env mrb_addr self
    (live h a cs ms e [mrb_obj p] (Some c) sk tr)
  = mpv_to_mrb_root env mrb_addr node true
      (live h a cs ms e [mrb_obj p] (Some c) sk tr) /\
  exists v ext a',
    _get_property env mrb_addr self
      (live h a cs ms e [mrb_obj p] (Some c) sk tr)
    = Ok v (live (h ++ ext) a' cs ms e [mrb_obj p] (Some c)
              (sk ++ map (fun t => (ctx_log c, MSGL_ERR, t)) (diag node))
              tr) /\
    reify (height node) (h ++ ext) v
    = Some (shape c_str (wrap (mrb_int_bits env)) node).
Proof.
  intros Hcs Hp Herr Hnode Htag.
  assert (Heq : _get_property env mrb_addr self
                  (live h a cs ms e [mrb_obj p] (Some c) sk tr)
                = mpv_to_mrb_root env mrb_addr node true
                    (live h a cs ms e [mrb_obj p] (Some c) sk tr)).
  { unfold _get_property.
    erewrite bind_Ok
      by (now apply (get_node_found env cs ms e c tr Hcs _ h a sk p bytes
                       node)).
    reflexivity. }
  split; [exact Heq|]. rewrite Heq.
  assert (Hready : ctx_ready node cs (Some c)).
  { right. split; [exact Hcs | now eexists]. }
  pose proof (mpv_to_mrb_root_run env cs ms e [mrb_obj p] (Some c) tr node
                Htag Hready true h a sk (length h) eq_refl) as Hrun.
  cbn zeta in Hrun.
  eexists _, _, _. split; [exact Hrun|].
  pose proof (reify_build (mrb_int_bits env) node (height node) h []
                (length h) eq_refl (le_n _)) as Hread.
  cbn zeta in Hread. now rewrite app_nil_r in Hread.
Qed.

Lemma get_property_converts_as_root_witness :
  _get_property sample_env mrb_addr mrb_nil
    (live [RString "pause"] [] sample_consts ∅ None [mrb_obj 0]
       (Some sample_ctx) [] [])
  = mpv_to_mrb_root sample_env mrb_addr (NodeFlag 0) true
      (live [RString "pause"] [] sample_consts ∅ None [mrb_obj 0]
         (Some sample_ctx) [] []) /\
  exists v ext a',
    _get_property sample_env mrb_addr mrb_nil
      (live [RString "pause"] [] sample_consts ∅ None [mrb_obj 0]
         (Some sample_ctx) [] [])
    = Ok v (live ([RString "pause"] ++ ext) a' sample_consts ∅ None
              [mrb_obj 0] (Some sample_ctx)
              ([] ++ map (fun t => (ctx_log sample_ctx, MSGL_ERR, t))
                       (diag (NodeFlag 0)))
              []) /\
    reify (height (NodeFlag 0)) ([RString "pause"] ++ ext) v
    = Some (shape c_str (wrap (mrb_int_bits sample_env)) (NodeFlag 0)).
Proof.
  apply (get_property_converts_as_root sample_env mrb_nil [RString "pause"]
           [] sample_consts ∅ None sample_ctx [] [] O "pause" (NodeFlag 0));
    reflexivity.
Defined.

(** X8: called with anything but one String, [_log] and [_get_property] raise
    the exception of [mrb_get_args] before they do anything else: nothing is
    logged, and the interpreter and the context are as they were. *)
Theorem bad_arguments_raise env self h a cs ms e ar c sk tr :
  cs !! "mpctx" = Some (mrb_cptr_v cptr_ctx) ->
  (forall p bytes, ar = [mrb_obj p] -> h !! p <> Some (RString bytes)) ->
  exists ex,
    _log mrb_addr self (live h a cs ms e ar (Some c) sk tr)
    = Raised ex (live h a cs ms e ar (Some c) sk tr) /\
    _get_property env mrb_addr self (live h a cs ms e ar (Some c) sk tr)
    = Raised ex (live h a cs ms e ar (Some c) sk tr).
Proof.
  intros Hcs Hbad.
  destruct (mrb_get_args_s_raises cs ms e c tr ar h a sk Hbad) as [ex Hex].
  exists ex. split.
  - unfold _log. erewrite bind_Ok by (now apply get_ctx_run).
    now erewrite bind_Raised by exact Hex.
  - unfold _get_property, get_node.
    erewrite bind_Raised; [reflexivity|].
    erewrite bind_Ok by (now apply get_ctx_run).
    now erewrite bind_Raised by exact Hex.
Qed.

Lemma bad_arguments_raise_witness :
  exists ex,
    _log mrb_addr mrb_nil
      (live [] [] sample_consts ∅ None [mrb_fixnum 3] (Some sample_ctx)
         [] [])
    = Raised ex
        (live [] [] sample_consts ∅ None [mrb_fixnum 3] (Some sample_ctx)
           [] []) /\
    _get_property sample_env mrb_addr mrb_nil
      (live [] [] sample_consts ∅ None [mrb_fixnum 3] (Some sample_ctx)
         [] [])
    = Raised ex
        (live [] [] sample_consts ∅ None [mrb_fixnum 3] (Some sample_ctx)
           [] []).
Proof.
  apply (bad_arguments_raise sample_env mrb_nil [] [] sample_consts ∅ None
           [mrb_fixnum 3] sample_ctx [] []); [reflexivity|].
  intros p bytes Har. discriminate Har.
Defined.

(** X9: with a host that keeps the contract of [mpv_get_property], a call of
    any of the three module functions is defined: it returns, having only
    added objects, arena slots and entries of the context's log at error
    severity, or it raises with the world as it was.  The constants, the
    methods, the pending exception, the context and the resource events stay
    as they were. *)
Theorem module_functions_are_safe env f self h a cs ms e ar c sk tr :
  cs !! "mpctx" = Some (mrb_cptr_v cptr_ctx) ->
  host_ok (formats env) (ctx_client c) ->
  (exists v ext a' sk',
      call_func env f mrb_addr self (live h a cs ms e ar (Some c) sk tr)
      = Ok v (live (h ++ ext) (a ++ a') cs ms e ar (Some c) (sk ++ sk')
                tr) /\
      error_entries (ctx_log c) sk') \/
  (exists ex,
      call_func env f mrb_addr self (live h a cs ms e ar (Some c) sk tr)
      = Raised ex (live h a cs ms e ar (Some c) sk tr)).
Proof.
  intros Hcs Hhost. now apply call_func_grows.
Qed.

Lemma module_functions_are_safe_witness :
  (exists v ext a' sk',
      call_func sample_env fn_property_list mrb_addr mrb_nil
        (live [] [] sample_consts ∅ None [] (Some sample_ctx) [] [])
      = Ok v (live ([] ++ ext) ([] ++ a') sample_consts ∅ None []
                (Some sample_ctx) ([] ++ sk') []) /\
      error_entries (ctx_log sample_ctx) sk') \/
  (exists ex,
      call_func sample_env fn_property_list mrb_addr mrb_nil
        (live [] [] sample_consts ∅ None [] (Some sample_ctx) [] [])
      = Raised ex
          (live [] [] sample_consts ∅ None [] (Some sample_ctx) [] [])).
Proof.
  apply (module_functions_are_safe sample_env fn_property_list mrb_nil [] []
           sample_consts ∅ None [] sample_ctx [] []);
    [reflexivity | exact sample_client_ok].
Defined.

(** ** Setting up the interpreter *)

Lemma define_module_run h a cs ms e ar cm sk tr :
  define_module mrb_addr (live h a cs ms e ar cm sk tr)
  = Ok tt (live h a cs (with_module ms) e ar cm sk tr).
Proof. reflexivity. Qed.

Lemma with_module_log ms : with_module ms !! ("M", "log") = Some fn_log.
Proof.
  unfold with_module. rewrite !lookup_insert_ne by discriminate.
  apply lookup_insert_eq.
Qed.

(** X10: [define_module] registers [log], [property_list] and [get_property]
    as functions of the module [M], each with its own C function; every
    other method, whether of [M] or of another receiver, and everything else
    in the interpreter is as before.  With a null interpreter the call is
    undefined. *)
Theorem define_module_registers h a cs ms e ar cm sk tr :
  (exists ms',
      define_module mrb_addr (live h a cs ms e ar cm sk tr)
      = Ok tt (live h a cs ms' e ar cm sk tr) /\
      ms' !! ("M", "log") = Some fn_log /\
      ms' !! ("M", "property_list") = Some fn_property_list /\
      ms' !! ("M", "get_property") = Some fn_get_property /\
      forall recv meth,
        ms' !! (recv, meth)
        = if decide (recv = "M" /\
                     (meth = "log" \/ meth = "property_list" \/
                      meth = "get_property"))
          then ms' !! ("M", meth)
          else ms !! (recv, meth)) /\
  (forall w, define_module mrb_null w = Undefined).
Proof.
  split; [|reflexivity].
  exists (with_module ms). split; [apply define_module_run|].
  unfold with_module. repeat split.
  - apply with_module_log.
  - rewrite lookup_insert_ne by discriminate. apply lookup_insert_eq.
  - apply lookup_insert_eq.
  - intros recv meth.
    destruct (decide _) as [[-> _]|Hno]; [reflexivity|].
    rewrite !lookup_insert_ne; [reflexivity|..];
      intros [= <- <-]; apply Hno; auto.
Qed.

(** X11: what a load binds to the constant [mpctx] is what [get_ctx] hands
    out: after [mrb_vm_const_set] with the pointer and [define_module],
    [get_ctx] returns that pointer and changes nothing, whatever the
    constants held before. *)
Theorem get_ctx_round_trip p h a cs ms e ar cm sk tr :
  (sym <- mrb_intern_cstr mrb_addr "mpctx" ;;
   mrb_vm_const_set mrb_addr sym (mrb_cptr_value mrb_addr p) ;;
   define_module mrb_addr ;;
   get_ctx mrb_addr) (live h a cs ms e ar cm sk tr)
  = Ok p (live h a (<["mpctx" := mrb_cptr_v p]> cs) (with_module ms) e ar cm
            sk tr).
Proof.
  unfold get_ctx, mrb_intern_cstr, mrb_vm_const_set, mrb_vm_const_get,
    define_module, mrb_define_module, mrb_define_module_function,
    bind, mrb_get, mrb_put, ret, live.
  cbn [interp mrb_consts set_interp set_consts set_methods mrb_methods
       mrb_heap mrb_arena mrb_exc mrb_args ctx_mem sink trace].
  rewrite lookup_insert_eq. reflexivity.
Qed.

(** X12: where the constant [mpctx] does not exist, [get_ctx] raises the
    interpreter's NameError and leaves the world as it was; so do [_log] and
    [_get_property], which call it before they read their argument. *)
Theorem unbound_context_raises env self h a cs ms e ar cm sk tr :
  cs !! "mpctx" = None ->
  get_ctx mrb_addr (live h a cs ms e ar cm sk tr)
  = Raised (E_NAME_ERROR "mpctx") (live h a cs ms e ar cm sk tr) /\
  _log mrb_addr self (live h a cs ms e ar cm sk tr)
  = Raised (E_NAME_ERROR "mpctx") (live h a cs ms e ar cm sk tr) /\
  _get_property env mrb_addr self (live h a cs ms e ar cm sk tr)
  = Raised (E_NAME_ERROR "mpctx") (live h a cs ms e ar cm sk tr).
Proof.
  intros Hno.
  assert (Hctx : get_ctx mrb_addr (live h a cs ms e ar cm sk tr)
                 = Raised (E_NAME_ERROR "mpctx")
                     (live h a cs ms e ar cm sk tr)).
  { unfold get_ctx, mrb_intern_cstr, mrb_vm_const_get, bind, mrb_get, ret,
      live. cbn [interp mrb_consts]. now rewrite Hno. }
  split; [exact Hctx|]. split.
  - unfold _log. now erewrite bind_Raised by exact Hctx.
  - unfold _get_property, get_node.
    erewrite bind_Raised; [reflexivity|].
    now erewrite bind_Raised by exact Hctx.
Qed.

Lemma unbound_context_raises_witness :
  get_ctx mrb_addr (live [] [] ∅ ∅ None [] (Some sample_ctx) [] [])
  = Raised (E_NAME_ERROR "mpctx")
      (live [] [] ∅ ∅ None [] (Some sample_ctx) [] []) /\
  _log mrb_addr mrb_nil (live [] [] ∅ ∅ None [] (Some sample_ctx) [] [])
  = Raised (E_NAME_ERROR "mpctx")
      (live [] [] ∅ ∅ None [] (Some sample_ctx) [] []) /\
  _get_property sample_env mrb_addr mrb_nil
    (live [] [] ∅ ∅ None [] (Some sample_ctx) [] [])
  = Raised (E_NAME_ERROR "mpctx")
      (live [] [] ∅ ∅ None [] (Some sample_ctx) [] []).
Proof.
  apply (unbound_context_raises sample_env mrb_nil [] [] ∅ ∅ None []
           (Some sample_ctx) [] []).
  apply lookup_empty.
Defined.

(** ** The parts of a load *)

(** Up to the call of [load_script], and from its return on. *)
Lemma load_mruby_run env client fname w h a cs ms e ar c1 sk tr1 :
  mrb_open_succeeds env = true ->
  load_script env mrb_addr fname (load_world client fname w)
  = Ok tt (live h a cs ms e ar (Some c1) sk tr1) ->
  ctx_state c1 = mrb_addr ->
  load_mruby env client fname w
  = Ok 0 (mk_world None None sk (tr1 ++ [ev_mrb_close; ev_ctx_free])).
Proof.
  intros Hopen Hrun Hs. unfold load_mruby. cbn zeta.
  erewrite bind_Ok by reflexivity.
  erewrite bind_Ok by (unfold mrb_open; rewrite Hopen; reflexivity).
  erewrite bind_Ok by reflexivity.
  erewrite bind_Ok by reflexivity.
  erewrite bind_Ok by reflexivity.
  erewrite bind_Ok by reflexivity.
  erewrite bind_Ok by reflexivity.
  match goal with
  | |- bind _ _ ?w0 = _ =>
      replace w0 with (load_world client fname w)
        by (unfold load_world; cbn; now rewrite <- app_assoc)
  end.
  erewrite bind_Ok by (erewrite bind_Ok by exact Hrun; reflexivity).
  unfold bind, ctx_read, live. cbn [ctx_mem]. rewrite Hs.
  cbn. now rewrite <- app_assoc.
Qed.

Section LoadScript.
Variable env : environment.
Variables (cs : gmap string mrb_value)
          (ms : gmap (string * string) mrb_func)
          (c : script_ctx) (tr : list event).
Hypothesis Hcs : cs !! "mpctx" = Some (mrb_cptr_v cptr_ctx).

Local Abbreviation world_at e ar h a sk :=
  (live h a cs ms e ar (Some c) sk tr).

(** [load_script], given what the run of the file's script comes to. *)
Lemma load_script_run fname prog e ar h a sk e1 ar1 h1 a1 sk1 :
  files env (mp_get_user_path (global (ctx_mpctx c)) fname) = Some prog ->
  vm_run env mrb_addr prog (world_at e ar h a sk)
  = Ok tt (world_at e1 ar1 h1 a1 sk1) ->
  load_script env mrb_addr fname (world_at e ar h a sk)
  = print_backtrace mrb_addr (world_at e1 ar1 h1 a1 sk1).
Proof.
  intros Hfile Hrun. unfold load_script.
  erewrite bind_Ok by (now apply get_ctx_run).
  erewrite bind_Ok by reflexivity. cbn zeta.
  erewrite bind_Ok by reflexivity. rewrite Hfile.
  erewrite bind_Ok by reflexivity.
  erewrite bind_Ok by reflexivity.
  erewrite bind_Ok; cycle 1.
  { unfold mrb_load_file_cxt. erewrite bind_Ok by reflexivity.
    erewrite bind_Ok by exact Hrun. reflexivity. }
  destruct e1 as [exc|].
  - rewrite (print_backtrace_run cs ms ar1 c tr Hcs).
    erewrite bind_Ok by (now apply (print_backtrace_run cs ms ar1 c tr Hcs)).
    reflexivity.
  - reflexivity.
Qed.

(** Without the file: the null stream reaches [fclose]. *)
Lemma load_script_missing fname e ar h a sk :
  files env (mp_get_user_path (global (ctx_mpctx c)) fname) = None ->
  load_script env mrb_addr fname (world_at e ar h a sk) = Undefined.
Proof.
  intros Hfile. unfold load_script.
  erewrite bind_Ok by (now apply get_ctx_run).
  erewrite bind_Ok by reflexivity. cbn zeta.
  erewrite bind_Ok by reflexivity. rewrite Hfile.
  erewrite bind_Ok by reflexivity.
  erewrite bind_Ok by reflexivity.
  erewrite bind_Ok by reflexivity.
  destruct e as [exc|].
  - erewrite bind_Ok by (now apply (print_backtrace_run cs ms ar c tr Hcs)).
    reflexivity.
  - reflexivity.
Qed.

Hypothesis Hlog : ms !! ("M", "log") = Some fn_log.

(** The script of [log_script]: each message goes through [_log]; the
    argument strings stay in the heap, the arena is back where it was. *)
Lemma vm_run_log_script msgs :
  forall e ar h a sk,
    exists ar' h',
      vm_run env mrb_addr (log_script msgs) (world_at e ar h a sk)
      = Ok tt (world_at e ar' h' a
                 (sk ++ ((fun m => (ctx_log c, MSGL_ERR, c_str m)) <$> msgs))).
Proof.
  induction msgs as [|m msgs IH]; intros e ar h a sk.
  - exists ar, h. cbn [log_script vm_run fmap list_fmap].
    now rewrite app_nil_r.
  - cbn [log_script vm_run].
    erewrite bind_Ok by reflexivity. cbn [mrb_methods]. rewrite Hlog.
    erewrite bind_Ok by apply mrb_gc_arena_save_run.
    erewrite bind_Ok; cycle 1.
    { cbn [map_m vm_arg].
      erewrite bind_Ok by (now apply mrb_obj_alloc_run).
      reflexivity. }
    erewrite bind_Ok by reflexivity.
    unfold protect. cbn [call_func].
    change (set_interp _ _)
      with (world_at e [mrb_obj (length h)] (h ++ [RString m])
              (a ++ [length h]) sk).
    rewrite (log_run cs ms e [mrb_obj (length h)] c tr Hcs mrb_nil
               (h ++ [RString m]) (a ++ [length h]) sk (length h) m
               eq_refl (list_lookup_middle _ _ _ _ eq_refl)).
    erewrite bind_Ok by apply mrb_gc_arena_restore_run.
    rewrite take_app_length.
    destruct (IH e [mrb_obj (length h)] (h ++ [RString m]) a
                (sk ++ [(ctx_log c, MSGL_ERR, c_str m)])) as (ar' & h' & ->).
    exists ar', h'. cbn [fmap list_fmap].
    now rewrite <- (app_assoc sk).
Qed.
End LoadScript.

Lemma load_world_live client fname w :
  load_world client fname w
  = live [] [] (<["mpctx" := mrb_cptr_v cptr_ctx]> ∅) (with_module ∅)
      None [] (Some (load_ctx client fname)) (sink w)
      (trace w ++ [ev_ctx_alloc; ev_mrb_open]).
Proof. reflexivity. Qed.

(** X13: a script file that cannot be opened is not handled: [fopen] gives
    a null stream, nothing tests it, and [load_script] passes it to
    [fclose].  The behaviour of [load_script] in the world the load calls it
    in, and so of the load, is undefined: no code is returned and nothing is
    cleaned up by the program. *)
Theorem missing_script_file_is_not_handled env client fname w :
  mrb_open_succeeds env = true ->
  files env (mp_get_user_path (global (mp_client_get_core client)) fname)
  = None ->
  load_script env mrb_addr fname (load_world client fname w) = Undefined /\
  load_mruby env client fname w = Undefined.
Proof.
  intros Hopen Hfile. split.
  - rewrite load_world_live.
    apply load_script_missing; [apply lookup_insert_eq | exact Hfile].
  - now apply load_mruby_missing_file.
Qed.

Lemma missing_script_file_is_not_handled_witness :
  load_script sample_env mrb_addr "none.mrb"
    (load_world sample_client "none.mrb" world_init) = Undefined /\
  load_mruby sample_env sample_client "none.mrb" world_init = Undefined.
Proof.
  apply (missing_script_file_is_not_handled sample_env sample_client
           "none.mrb" world_init); reflexivity.
Defined.

(** X14: a load whose script raises an exception that nothing rescues adds
    exactly one entry to the sink: the report of [print_backtrace] for that
    exception, at error severity, in the log of the client that loads.  The
    load returns 0, with the interpreter closed and the context freed. *)
Theorem load_reports_uncaught_exception env client fname exc w :
  mrb_open_succeeds env = true ->
  files env (mp_get_user_path (global (mp_client_get_core client)) fname)
  = Some (script_raise exc) ->
  load_mruby env client fname w
  = Ok 0 (mk_world None None
            (sink w ++
               [(mp_client_get_log client, MSGL_ERR,
                 backtrace_text (c_str (exc_inspect exc))
                   (c_str <$> exc_backtrace exc))])
            (trace w ++ [ev_ctx_alloc; ev_mrb_open; ev_mrb_close;
                         ev_ctx_free])).
Proof.
  intros Hopen Hfile.
  erewrite load_mruby_run with (c1 := load_ctx client fname);
    [| exact Hopen | | reflexivity]; cycle 1.
  { rewrite load_world_live.
    erewrite load_script_run;
      [| apply lookup_insert_eq | exact Hfile | reflexivity].
    apply print_backtrace_run. apply lookup_insert_eq. }
  cbn. now rewrite <- app_assoc.
Qed.

Lemma load_reports_uncaught_exception_witness :
  load_mruby sample_env sample_client "fault.mrb" world_init
  = Ok 0 (mk_world None None
            (sink world_init ++
               [(mp_client_get_log sample_client, MSGL_ERR,
                 backtrace_text (c_str (exc_inspect sample_fault))
                   (c_str <$> exc_backtrace sample_fault))])
            (trace world_init ++
               [ev_ctx_alloc; ev_mrb_open; ev_mrb_close; ev_ctx_free])).
Proof.
  apply (load_reports_uncaught_exception sample_env sample_client
           "fault.mrb" sample_fault world_init); reflexivity.
Defined.

(** X15: the messages a script logs reach the log of the client that loaded
    it.  For the script that calls [M.log] with each of the messages in turn
    and ends, the load appends to the sink one entry for each message, in
    the order of the calls, at error severity, with the message as a C
    string, and returns 0; a script that ends at once adds nothing. *)
Theorem script_log_calls_reach_client_log env client fname msgs w :
  mrb_open_succeeds env = true ->
  files env (mp_get_user_path (global (mp_client_get_core client)) fname)
  = Some (log_script msgs) ->
  load_mruby env client fname w
  = Ok 0 (mk_world None None
            (sink w ++
               ((fun m => (mp_client_get_log client, MSGL_ERR, c_str m))
                  <$> msgs))
            (trace w ++ [ev_ctx_alloc; ev_mrb_open; ev_mrb_close;
                         ev_ctx_free])).
Proof.
  intros Hopen Hfile.
  destruct (vm_run_log_script env (<["mpctx" := mrb_cptr_v cptr_ctx]> ∅)
              (with_module ∅) (load_ctx client fname)
              (trace w ++ [ev_ctx_alloc; ev_mrb_open])
              (lookup_insert_eq _ _ _) (with_module_log ∅) msgs None [] [] []
              (sink w))
    as (ar' & h' & Hrun).
  erewrite load_mruby_run with (c1 := load_ctx client fname);
    [| exact Hopen | | reflexivity]; cycle 1.
  { rewrite load_world_live.
    erewrite load_script_run;
      [| apply lookup_insert_eq | exact Hfile | exact Hrun].
    reflexivity. }
  cbn. now rewrite <- app_assoc.
Qed.

Lemma script_log_calls_reach_client_log_witness :
  load_mruby
    {| formats := sample_formats; mrb_int_bits := 64;
       mrb_open_succeeds := true; mp_get_property_list := [];
       mpv_error_string := (fun _ => "error");
       files := (fun _ => Some (log_script ["one"; nul_message])) |}
    sample_client "log.mrb" world_init
  = Ok 0 (mk_world None None
            (sink world_init ++
               ((fun m => (mp_client_get_log sample_client, MSGL_ERR,
                           c_str m))
                  <$> ["one"; nul_message]))
            (trace world_init ++
               [ev_ctx_alloc; ev_mrb_open; ev_mrb_close; ev_ctx_free])).
Proof.
  apply (script_log_calls_reach_client_log
           {| formats := sample_formats; mrb_int_bits := 64;
              mrb_open_succeeds := true; mp_get_property_list := [];
              mpv_error_string := (fun _ => "error");
              files := (fun _ => Some (log_script ["one"; nul_message])) |}
           sample_client "log.mrb" ["one"; nul_message] world_init);
    reflexivity.
Defined.

(** ** What a load writes *)

Lemma error_entries_app lg sk1 sk2 :
  error_entries lg sk1 -> error_entries lg sk2 ->
  error_entries lg (sk1 ++ sk2).
Proof. unfold error_entries. intros H1 H2. apply Forall_app. now split. Qed.

Section Grows.
Variable env : environment.
Variables (cs : gmap string mrb_value)
          (ms : gmap (string * string) mrb_func)
          (c : script_ctx) (tr : list event).
Hypothesis Hcs : cs !! "mpctx" = Some (mrb_cptr_v cptr_ctx).
Hypothesis Hhost : host_ok (formats env) (ctx_client c).

Local Abbreviation world_at e ar h a sk :=
  (live h a cs ms e ar (Some c) sk tr).

(** A script run keeps what the sink held and adds error entries of the
    context's log. *)
Lemma vm_run_grows prog :
  forall e ar h a sk,
    exists e' ar' h' a' sk',
      vm_run env mrb_addr prog (world_at e ar h a sk)
      = Ok tt (world_at e' ar' h' a' (sk ++ sk')) /\
      error_entries (ctx_log c) sk'.
Proof.
  induction prog as [|ex|recv meth args k IHk rescue IHr];
    intros e ar h a sk.
  - exists e, ar, h, a, []. rewrite app_nil_r. split; [reflexivity|].
    constructor.
  - exists (Some ex), ar, h, a, []. rewrite app_nil_r.
    split; [reflexivity | constructor].
  - cbn [vm_run].
    erewrite bind_Ok by reflexivity. cbn [mrb_methods].
    destruct (ms !! (recv, meth)) as [f|]; [|apply IHr].
    erewrite bind_Ok by apply mrb_gc_arena_save_run.
    destruct (vm_args_run cs ms c tr args e ar h a sk)
      as (h1 & a1 & argv & Hargs).
    erewrite bind_Ok by exact Hargs.
    erewrite bind_Ok by reflexivity.
    unfold protect.
    change (set_interp _ _) with (world_at e argv h1 a1 sk).
    destruct (call_func_grows env cs ms e c tr Hcs f mrb_nil argv h1 a1 sk
                Hhost)
      as [(v & ext & a' & sk1 & -> & Hsk1)|(ex & ->)].
    + erewrite bind_Ok by apply mrb_gc_arena_restore_run.
      destruct (IHk v e argv (h1 ++ ext) (take (length a) (a1 ++ a'))
                  (sk ++ sk1))
        as (e2 & ar2 & h2 & a2 & sk2 & -> & Hsk2).
      exists e2, ar2, h2, a2, (sk1 ++ sk2). rewrite (app_assoc sk).
      split; [reflexivity | now apply error_entries_app].
    + erewrite bind_Ok by apply mrb_gc_arena_restore_run. apply IHr.
Qed.

Lemma load_script_grows fname prog e ar h a sk :
  files env (mp_get_user_path (global (ctx_mpctx c)) fname) = Some prog ->
  exists e' ar' h' a' sk',
    load_script env mrb_addr fname (world_at e ar h a sk)
    = Ok tt (world_at e' ar' h' a' (sk ++ sk')) /\
    error_entries (ctx_log c) sk'.
Proof.
  intros Hfile.
  destruct (vm_run_grows prog e ar h a sk)
    as (e1 & ar1 & h1 & a1 & sk1 & Hrun & Hsk1).
  rewrite (load_script_run env cs ms c tr Hcs fname prog e ar h a sk
             e1 ar1 h1 a1 (sk ++ sk1) Hfile Hrun).
  destruct e1 as [exc|].
  - rewrite (print_backtrace_run cs ms ar1 c tr Hcs).
    eexists _, _, _, _, (sk1 ++ [_]). rewrite (app_assoc sk).
    split; [reflexivity|].
    apply error_entries_app; [exact Hsk1|]. now repeat constructor.
  - exists None, ar1, h1, a1, sk1. split; [reflexivity | exact Hsk1].
Qed.
End Grows.

(** X16: whatever the script does, a load that finds the interpreter and
    the file keeps every entry the sink held and appends only entries at
    error severity in the log of the client that loads: the bridge writes at
    no other severity and to no other log. *)
Theorem load_only_appends_error_entries env client fname prog w :
  mrb_open_succeeds env = true ->
  files env (mp_get_user_path (global (mp_client_get_core client)) fname)
  = Some prog ->
  host_ok (formats env) client ->
  exists sk',
    load_mruby env client fname w
    = Ok 0 (mk_world None None (sink w ++ sk')
              (trace w ++ [ev_ctx_alloc; ev_mrb_open; ev_mrb_close;
                           ev_ctx_free])) /\
    error_entries (mp_client_get_log client) sk'.
Proof.
  intros Hopen Hfile Hhost.
  destruct (load_script_grows env (<["mpctx" := mrb_cptr_v cptr_ctx]> ∅)
              (with_module ∅) (load_ctx client fname)
              (trace w ++ [ev_ctx_alloc; ev_mrb_open])
              (lookup_insert_eq _ _ _) Hhost fname prog None [] [] []
              (sink w) Hfile)
    as (e1 & ar1 & h1 & a1 & sk1 & Hrun & Hsk1).
  exists sk1. split; [|exact Hsk1].
  erewrite load_mruby_run with (c1 := load_ctx client fname);
    [| exact Hopen | rewrite load_world_live; exact Hrun | reflexivity].
  cbn. now rewrite <- app_assoc.
Qed.

Lemma load_only_appends_error_entries_witness :
  exists sk',
    load_mruby sample_env sample_client "ok.mrb" world_init
    = Ok 0 (mk_world None None (sink world_init ++ sk')
              (trace world_init ++
                 [ev_ctx_alloc; ev_mrb_open; ev_mrb_close; ev_ctx_free])) /\
    error_entries (mp_client_get_log sample_client) sk'.
Proof.
  apply (load_only_appends_error_entries sample_env sample_client "ok.mrb"
           sample_script world_init);
    [reflexivity | reflexivity | exact sample_client_ok].
Defined.
